(** * Kaguya Music Mood API: orchestration layer of [backend.py]

    A shallow embedding of the request-handling code of [backend.py]:
    the Spotify search with its deduplication loop, the fallback search
    URL, playlist creation with the [created_playlists] cache, the
    playlist endpoint, the cleanup endpoint, the face selection of the
    mood detector and the WebSocket loop with its connection manager; the
    detection endpoints (base64 and file upload), the start-up of the
    Spotify clients, the health and mood listings and the two OAuth
    endpoints.

    Conventions.
    - A Python [str] is a [string] holding its UTF-8 bytes; [urllib.parse.quote]
      works on exactly these bytes.  [str.lower] is modelled on ASCII letters
      (the mood names and the brand prefix are ASCII): it is [str.lower] on
      the strings for which [str.isascii] holds, and a statement about the
      lower-cased text of a playlist name or of a mood that the caller
      chooses is made for such strings.
    - Python [int] is [Z]; the rectangles of the face detector are NumPy
      [int32] values, whose product wraps around.
    - The module-level globals and the external Spotify service are fields
      of one [Process] record, threaded through a state-and-exception monad.
    - [trace] is ghost state: it logs every access to [created_playlists]
      and every call to the Spotify Web API, most recent first. *)

From Stdlib Require Import ZArith QArith Ascii String List Lia.
From stdpp Require Import base option list gmap strings pretty.
From Equations Require Import Equations.

Local Open Scope string_scope.
Local Open Scope Z_scope.
Local Open Scope list_scope.

(* ================================================================== *)
(** ** Python strings *)

Module PyStr.

(** [bool(s)] for a [str]: non-empty. *)
Definition nonempty (s : string) : bool :=
  match s with EmptyString => false | String _ _ => true end.

(** [bool(d.get(k))] where the value, if present, is a [str]. *)
Definition truthy (o : option string) : bool :=
  match o with Some s => nonempty s | None => false end.

Definition is_upper (c : ascii) : bool :=
  ((65 <=? N_of_ascii c) && (N_of_ascii c <=? 90))%N.
Definition is_lower (c : ascii) : bool :=
  ((97 <=? N_of_ascii c) && (N_of_ascii c <=? 122))%N.
Definition is_digit (c : ascii) : bool :=
  ((48 <=? N_of_ascii c) && (N_of_ascii c <=? 57))%N.

Definition lower_char (c : ascii) : ascii :=
  if is_upper c then ascii_of_N (N_of_ascii c + 32) else c.

(** [s.lower()], on ASCII letters.  On a string with a byte above 127
    Python follows the Unicode case tables, which are not modelled. *)
Fixpoint lower (s : string) : string :=
  match s with
  | EmptyString => EmptyString
  | String c r => String (lower_char c) (lower r)
  end.

(** [s.isascii()]: every byte is below 128. *)
Fixpoint isascii (s : string) : bool :=
  match s with
  | EmptyString => true
  | String c r => (N_of_ascii c <? 128)%N && isascii r
  end.

(** [s.startswith(p)]. *)
Definition startswith (s p : string) : bool := String.prefix p s.

(** [sep.join(l)]. *)
Definition join (sep : string) (l : list string) : string :=
  String.concat sep l.

Definition hex_digit (n : N) : ascii :=
  if (n <? 10)%N then ascii_of_N (48 + n) else ascii_of_N (55 + n).

(** The characters [urllib.parse.quote] never escapes, with its default
    [safe='/']: letters, digits and [_.-~/]. *)
Definition quote_safe (c : ascii) : bool :=
  is_upper c || is_lower c || is_digit c
  || bool_decide (c ∈ ["_"; "."; "-"; "~"; "/"]%char).

Definition quote_byte (c : ascii) : string :=
  if quote_safe c then String c EmptyString
  else String "%" (String (hex_digit (N_of_ascii c / 16))
                  (String (hex_digit (N_of_ascii c mod 16)) EmptyString)).

(** [urllib.parse.quote(s)]. *)
Fixpoint quote (s : string) : string :=
  match s with
  | EmptyString => EmptyString
  | String c r => quote_byte c +:+ quote r
  end.

(** [needle in s] for two [str]. *)
Fixpoint contains (needle s : string) : bool :=
  String.prefix needle s ||
  match s with
  | EmptyString => false
  | String _ r => contains needle r
  end.

End PyStr.

(* ================================================================== *)
(** ** Tracks *)

(** The objects of a Spotify search response that [search_spotify_by_mood]
    reads.  A JSON [null] is [None]. *)
Record RawAlbum := {
  album_name : string;
  album_images : list string        (* the [url] of each image *)
}.

Record RawTrack := {
  raw_id : option string;
  raw_name : string;
  raw_artists : list string;        (* the [name] of each artist *)
  raw_album : option RawAlbum;      (* subscripting a null album raises *)
  raw_preview_url : option string;
  raw_spotify_url : string;         (* [external_urls.spotify] *)
  raw_duration_ms : Z;
  raw_popularity : Z
}.

(** The [track_info] dictionary.  [create_spotify_playlist_url] and
    [create_actual_spotify_playlist] read it with [dict.get], so the three
    keys they read are optional. *)
Record Track := {
  track_id : option string;
  track_name : option string;
  track_artist : option string;
  track_album : string;
  track_image_url : option string;
  track_preview_url : option string;
  track_spotify_url : string;
  track_duration_ms : Z;
  track_popularity : Z
}.

(** The body of the [for] loop of [search_spotify_by_mood] that builds
    [track_info]; [None] when it raises. *)
Definition track_info (t : RawTrack) : option Track :=
  let artist_name :=
    match raw_artists t with a :: _ => a | [] => "Unknown Artist" end in
  album ← raw_album t;
  let image_url :=
    match album_images album with
    | [] => None
    | [i0] => Some i0
    | _ :: i1 :: _ => Some i1
    end in
  Some {| track_id := raw_id t;
          track_name := Some (raw_name t);
          track_artist := Some artist_name;
          track_album := album_name album;
          track_image_url := image_url;
          track_preview_url := raw_preview_url t;
          track_spotify_url := raw_spotify_url t;
          track_duration_ms := raw_duration_ms t;
          track_popularity := raw_popularity t |}.

(** [get_mood_search_query]. *)
Definition get_mood_search_query (mood : string) : string :=
  if String.eqb mood "Happy" then "happy upbeat pop dance bollywood energetic"
  else if String.eqb mood "Sad" then "sad melancholic acoustic emotional hindi heartbreak"
  else if String.eqb mood "Angry" then "angry rock metal aggressive rap hindi"
  else if String.eqb mood "Fear" then "ambient dark atmospheric calm soothing"
  else if String.eqb mood "Surprise" then "electronic experimental pop energetic dance"
  else if String.eqb mood "Disgust" then "rock alternative metal angry"
  else if String.eqb mood "Neutral" then "pop indie chill relaxed"
  else "pop music".

(** The [for track in results['tracks']['items']] loop.  [tracks] and
    [seen] are the two accumulators; an item is [None] when it is falsy
    ([if not track: continue]).  The result is [None] when the body raises. *)
Fixpoint collect_tracks (limit : Z) (items : list (option RawTrack))
    (tracks : list Track) (seen : gset (option string)) : option (list Track) :=
  match items with
  | [] => Some tracks
  | None :: rest => collect_tracks limit rest tracks seen
  | Some t :: rest =>
      if decide (raw_id t ∈ seen) then collect_tracks limit rest tracks seen
      else
        info ← track_info t;
        let tracks' := tracks ++ [info] in
        let seen' := {[raw_id t]} ∪ seen in
        if Z.of_nat (length tracks') >=? limit then Some tracks'
        else collect_tracks limit rest tracks' seen'
  end.

(* ================================================================== *)
(** ** The fallback search URL *)

Definition search_url_prefix : string := "https://open.spotify.com/search/".

(** [f"{track['name']} {track['artist']}"] under its guard. *)
Definition name_artist (t : Track) : option string :=
  if PyStr.truthy (track_name t) && PyStr.truthy (track_artist t)
  then Some (default "" (track_name t) +:+ " " +:+ default "" (track_artist t))
  else None.

(** The list [track_names] built from [tracks[:5]]. *)
Definition track_names (tracks : list Track) : list string :=
  omap name_artist (take 5 tracks).

(** [create_spotify_playlist_url].  Nothing in the [try] block raises on
    the values modelled here, so the [except] branch is not reached.  The
    lower case of the mood in the last branch is the one of the code for an
    ASCII mood (see [PyStr.lower]). *)
Definition create_spotify_playlist_url (tracks : list Track) (mood : option string)
    : option string :=
  match tracks with
  | [] => None
  | _ :: _ =>
      let track_ids := filter (λ t, PyStr.truthy (track_id t) = true) tracks in
      let names := track_names tracks in
      match track_ids, names with
      | _ :: _, _ :: _ =>
          let search_query := PyStr.join " " names in
          let search_query :=
            if PyStr.truthy mood then default "" mood +:+ " " +:+ search_query
            else search_query in
          Some (search_url_prefix +:+ PyStr.quote search_query)
      | _, _ :: _ =>
          let search_query := PyStr.join " " names in
          let search_query :=
            if PyStr.truthy mood then default "" mood +:+ " mood " +:+ search_query
            else search_query in
          Some (search_url_prefix +:+ PyStr.quote search_query)
      | _, [] =>
          let mood_search :=
            if PyStr.truthy mood then PyStr.lower (default "" mood) else "mood" in
          Some (search_url_prefix +:+ mood_search +:+ "%20music")
      end
  end.

(* ================================================================== *)
(** ** The process state and the Spotify service *)

Record Playlist := {
  playlist_name : string;
  playlist_id : string;
  playlist_url : string               (* [external_urls.spotify] *)
}.

(** Calls of the Spotify Web API through [spotipy]. *)
Inductive ApiCall :=
| ApiSearch (q : string) (limit : Z) (market : string)
| ApiGetCachedToken
| ApiCurrentUser
| ApiUserPlaylistCreate (user name description : string)
| ApiPlaylistAddItems (pid : string) (uris : list string)
| ApiCurrentUserPlaylists (limit offset : nat)
| ApiUserPlaylistUnfollow (user pid : string).

(** Ghost events: accesses to [created_playlists] and API calls. *)
Inductive Event :=
| CacheLookup (mood : string)
| CacheStore (mood url : string)
| CacheClear
| Api (c : ApiCall).

(** The external Spotify service as the code sees it: an account with a
    list of playlists, and the outcome of each call.  [None] or [false]
    stands for a call that raises. *)
Record Spotify := {
  search_results : string → Z → string → option (list (option RawTrack));
  cached_token : option string;          (* [get_cached_token()] *)
  token_accepted : bool;                 (* does [current_user()] succeed *)
  user_id : string;
  playlists : list Playlist;             (* the user's playlists *)
  create_response : list Playlist → string → option Playlist;
  add_items_ok : string → list string → bool;
  listing_ok : nat → bool;               (* by offset *)
  unfollow_ok : string → bool            (* by playlist id *)
}.

(** NumPy [int32] rectangles [(x, y, w, h)] of [detectMultiScale]. *)
Record Face := { face_x : Z; face_y : Z; face_w : Z; face_h : Z }.

(** A decoded image, represented by what the two collaborators return on
    it: the rectangles of the face detector and, for the face that is
    cropped, [argmax] and [max] of the prediction vector of the model
    ([None] when cropping, resizing or predicting raises). *)
Record Image := {
  detected_faces : list Face;
  prediction : Face → option (Z * Q)
}.

(** The module-level globals of [backend.py] (a loaded model or client is
    [true], [None] is [false]), the environment and the collaborators. *)
Record Process := {
  mood_model : bool;
  face_cascade : bool;
  spotify_client : bool;
  spotify_oauth : bool;
  created_playlists : gmap string string;      (* {mood: playlist_url} *)
  spotify_market : option string;              (* [SPOTIFY_MARKET] *)
  open_image : string → option Image;          (* base64 payload to pixels *)
  spotify : Spotify;
  trace : list Event
}.

Definition with_trace (tr : list Event) (p : Process) : Process :=
  {| mood_model := mood_model p; face_cascade := face_cascade p;
     spotify_client := spotify_client p; spotify_oauth := spotify_oauth p;
     created_playlists := created_playlists p;
     spotify_market := spotify_market p; open_image := open_image p;
     spotify := spotify p; trace := tr |}.

Definition with_created_playlists (c : gmap string string) (p : Process) : Process :=
  {| mood_model := mood_model p; face_cascade := face_cascade p;
     spotify_client := spotify_client p; spotify_oauth := spotify_oauth p;
     created_playlists := c;
     spotify_market := spotify_market p; open_image := open_image p;
     spotify := spotify p; trace := trace p |}.

Definition with_playlists (l : list Playlist) (p : Process) : Process :=
  let sp := spotify p in
  {| mood_model := mood_model p; face_cascade := face_cascade p;
     spotify_client := spotify_client p; spotify_oauth := spotify_oauth p;
     created_playlists := created_playlists p;
     spotify_market := spotify_market p; open_image := open_image p;
     spotify :=
       {| search_results := search_results sp; cached_token := cached_token sp;
          token_accepted := token_accepted sp; user_id := user_id sp;
          playlists := l; create_response := create_response sp;
          add_items_ok := add_items_ok sp; listing_ok := listing_ok sp;
          unfollow_ok := unfollow_ok sp |};
     trace := trace p |}.

(* ================================================================== *)
(** ** State and exceptions *)

Inductive Exn :=
| HTTPException (status_code : Z) (detail : string)
| PyError (msg : string).

Inductive Res (A : Type) :=
| Ok (a : A)
| Raise (e : Exn).
Arguments Ok {A} a.
Arguments Raise {A} e.

Definition M (A : Type) : Type := Process → Res A * Process.

Definition ret {A} (a : A) : M A := λ p, (Ok a, p).
Definition raise {A} (e : Exn) : M A := λ p, (Raise e, p).
Definition bind {A B} (m : M A) (k : A → M B) : M B :=
  λ p, match m p with
       | (Ok a, p') => k a p'
       | (Raise e, p') => (Raise e, p')
       end.
(** [try: body except ...: handler]; what the body did to the state stays. *)
Definition try_except {A} (body : M A) (handler : Exn → M A) : M A :=
  λ p, match body p with
       | (Ok a, p') => (Ok a, p')
       | (Raise e, p') => handler e p'
       end.
Definition gets {A} (f : Process → A) : M A := λ p, (Ok (f p), p).
Definition modify (f : Process → Process) : M unit := λ p, (Ok tt, f p).
Definition emit (e : Event) : M unit := modify (λ p, with_trace (e :: trace p) p).

Notation "'let*' x ':=' c 'in' k" := (bind c (λ x, k))
  (at level 10, x name, c at level 100, k at level 200).
Notation "c '>>' k" := (bind c (λ _, k))
  (at level 100, k at level 200, right associativity).

(** The two [except] clauses that close every endpoint:
    [except HTTPException: raise] and
    [except Exception: raise HTTPException(500, "Internal server error")]. *)
Definition endpoint {A} (body : M A) : M A :=
  try_except body (λ e,
    match e with
    | HTTPException _ _ => raise e
    | PyError _ => raise (HTTPException 500 "Internal server error")
    end).

(** *** The API calls *)

Definition api_search (q : string) (limit : Z) (market : string)
    : M (list (option RawTrack)) :=
  emit (Api (ApiSearch q limit market)) >>
  let* sp := gets spotify in
  match search_results sp q limit market with
  | Some items => ret items
  | None => raise (PyError "SpotifyException")
  end.

Definition api_get_cached_token : M (option string) :=
  emit (Api ApiGetCachedToken) >>
  gets (λ p, cached_token (spotify p)).

(** [sp.current_user()['id']]. *)
Definition api_current_user : M string :=
  emit (Api ApiCurrentUser) >>
  let* sp := gets spotify in
  if token_accepted sp then ret (user_id sp)
  else raise (PyError "SpotifyException").

Definition api_user_playlist_create (user name description : string) : M Playlist :=
  emit (Api (ApiUserPlaylistCreate user name description)) >>
  let* sp := gets spotify in
  match create_response sp (playlists sp) name with
  | Some pl => modify (with_playlists (pl :: playlists sp)) >> ret pl
  | None => raise (PyError "SpotifyException")
  end.

Definition api_playlist_add_items (pid : string) (uris : list string) : M unit :=
  emit (Api (ApiPlaylistAddItems pid uris)) >>
  let* sp := gets spotify in
  if add_items_ok sp pid uris then ret tt
  else raise (PyError "SpotifyException").

(** [sp.current_user_playlists(limit, offset)['items']]. *)
Definition api_current_user_playlists (limit offset : nat) : M (list Playlist) :=
  emit (Api (ApiCurrentUserPlaylists limit offset)) >>
  let* sp := gets spotify in
  if listing_ok sp offset then ret (take limit (drop offset (playlists sp)))
  else raise (PyError "SpotifyException").

Definition api_user_playlist_unfollow (user pid : string) : M unit :=
  emit (Api (ApiUserPlaylistUnfollow user pid)) >>
  let* sp := gets spotify in
  if unfollow_ok sp pid
  then modify (with_playlists
                 (filter (λ pl, playlist_id pl ≠ pid) (playlists sp)))
  else raise (PyError "SpotifyException").

(* ================================================================== *)
(** ** Music recommender and playlist manager *)

(** [MOOD_LABELS]. *)
Definition MOOD_LABELS : list (Z * string) :=
  [(0, "Angry"); (1, "Disgust"); (2, "Fear"); (3, "Happy");
   (4, "Sad"); (5, "Surprise"); (6, "Neutral")].

(** [MOOD_LABELS.values()]. *)
Definition mood_values : list string := MOOD_LABELS.*2.

(** [MOOD_LABELS.get(i, "Unknown")]. *)
Definition mood_label (i : Z) : string :=
  default "Unknown" (snd <$> List.find (λ kv, Z.eqb kv.1 i) MOOD_LABELS).

(** [search_spotify_by_mood]. *)
Definition search_spotify_by_mood (mood : string) (limit : Z) : M (list Track) :=
  try_except
    (let* client := gets spotify_client in
     if negb client then raise (PyError "Spotify client not initialized")
     else
       let search_query := get_mood_search_query mood in
       let* market := gets (λ p, default "US" (spotify_market p)) in
       let search_limit := Z.min (limit * 2) 50 in
       let* items := api_search search_query search_limit market in
       match collect_tracks limit items [] ∅ with
       | Some tracks => ret tracks
       | None => raise (PyError "TypeError")
       end)
    (λ _, ret []).

(** [get_authenticated_spotify_client]; the client is only a handle, so
    the result says whether one is returned. *)
Definition get_authenticated_spotify_client : M bool :=
  try_except
    (let* oauth := gets spotify_oauth in
     if negb oauth then ret false
     else
       let* token_info := api_get_cached_token in
       match token_info with
       | None => ret false
       | Some _ =>
           try_except (api_current_user >> ret true) (λ _, ret false)
       end)
    (λ _, ret false).

(** The loop of [create_actual_spotify_playlist] over [tracks[:50]]. *)
Fixpoint collect_uris (tracks : list Track) (track_uris : list string)
    (seen_uris : gset string) : list string :=
  match tracks with
  | [] => track_uris
  | t :: rest =>
      if PyStr.truthy (track_id t) then
        let track_uri := "spotify:track:" +:+ default "" (track_id t) in
        if decide (track_uri ∈ seen_uris) then collect_uris rest track_uris seen_uris
        else collect_uris rest (track_uris ++ [track_uri]) ({[track_uri]} ∪ seen_uris)
      else collect_uris rest track_uris seen_uris
  end.

(** [create_actual_spotify_playlist]. *)
Definition create_actual_spotify_playlist (tracks : list Track) (mood : string)
    : M (option string) :=
  try_except
    (match tracks with
     | [] => ret None
     | _ :: _ =>
         emit (CacheLookup mood) >>
         let* cache := gets created_playlists in
         match cache !! mood with
         | Some url => ret (Some url)
         | None =>
             let* sp := get_authenticated_spotify_client in
             if negb sp then ret None
             else
               let* user := api_current_user in
               let playlist_name := "kaguya " +:+ PyStr.lower mood +:+ " mood" in
               let playlist_description :=
                 "curated " +:+ PyStr.lower mood
                 +:+ " playlist generated by kaguya ai mood detection" in
               let* playlist :=
                 api_user_playlist_create user playlist_name playlist_description in
               let track_uris := collect_uris (take 50 tracks) [] ∅ in
               (match track_uris with
                | [] => ret tt
                | _ :: _ => api_playlist_add_items (playlist_id playlist) track_uris
                end) >>
               let url := playlist_url playlist in
               emit (CacheStore mood url) >>
               modify (λ p, with_created_playlists
                              (<[mood := url]> (created_playlists p)) p) >>
               ret (Some url)
         end
     end)
    (λ _, ret None).

(** [PlaylistResponse]. *)
Record PlaylistResponse := {
  resp_mood : string;
  resp_playlist_url : option string;
  resp_tracks : list Track
}.

(** [GET /playlist/{mood}]. *)
Definition get_playlist_by_mood (mood : string) (limit : Z) : M PlaylistResponse :=
  endpoint
    (let* client := gets spotify_client in
     if negb client
     then raise (HTTPException 503 "Spotify client not initialized")
     else if negb (bool_decide (mood ∈ mood_values))
     then raise (HTTPException 400
       "Invalid mood. Valid moods: ['Angry', 'Disgust', 'Fear', 'Happy', 'Sad', 'Surprise', 'Neutral']")
     else
       let* tracks := search_spotify_by_mood mood limit in
       match tracks with
       | [] => raise (HTTPException 404 ("No tracks found for mood: " +:+ mood))
       | _ :: _ =>
           let* url := create_actual_spotify_playlist tracks mood in
           ret {| resp_mood := mood; resp_playlist_url := url;
                  resp_tracks := tracks |}
       end).

(** The HTTP status of an endpoint's outcome.  An exception that is not an
    [HTTPException] cannot leave [endpoint]; the framework would answer 500. *)
Definition status_code_of {A} (r : Res A) : Z :=
  match r with
  | Ok _ => 200
  | Raise (HTTPException c _) => c
  | Raise (PyError _) => 500
  end.

(* ================================================================== *)
(** ** Mood detection *)

(** Two's-complement wrap-around of a NumPy [int32] result. *)
Definition wrap32 (z : Z) : Z := (z + 2 ^ 31) mod 2 ^ 32 - 2 ^ 31.

(** The key [lambda face: face[2] * face[3]]. *)
Definition face_area (f : Face) : Z := wrap32 (face_w f * face_h f).

(** Python's [max(iterable, key=...)] after its first item: a later item
    replaces the current maximum only when its key is strictly greater. *)
Fixpoint py_max {A} (key : A → Z) (best : A) (rest : list A) : A :=
  match rest with
  | [] => best
  | x :: rest' => if key x >? key best then py_max key x rest' else py_max key best rest'
  end.

(** [detect_mood_from_image]: the pair [(mood_name, confidence)]. *)
Definition detect_mood_from_image (image_array : Image) : M (option string * Q) :=
  try_except
    (let* model := gets mood_model in
     if negb model then raise (PyError "Mood model not loaded")
     else
       let* cascade := gets face_cascade in
       if negb cascade then raise (PyError "AttributeError")
       else
         match detected_faces image_array with
         | [] => ret (None, 0%Q)
         | first :: others =>
             let largest_face := py_max face_area first others in
             match prediction image_array largest_face with
             | None => raise (PyError "error")
             | Some (mood_index, confidence) =>
                 ret (Some (mood_label mood_index), confidence)
             end
         end)
    (λ _, ret (None, 0%Q)).

(** [s.split(",")[1]] for a string that contains a comma. *)
Fixpoint until_comma (s : string) : string :=
  match s with
  | EmptyString => EmptyString
  | String c r => if Ascii.eqb c "," then EmptyString else String c (until_comma r)
  end.
Fixpoint after_comma (s : string) : string :=
  match s with
  | EmptyString => EmptyString
  | String c r => if Ascii.eqb c "," then r else after_comma r
  end.

(** [base64_to_image]: every failure becomes [HTTPException(400)]. *)
Definition base64_to_image (base64_string : string) : M Image :=
  let payload :=
    if PyStr.contains "," base64_string
    then until_comma (after_comma base64_string)
    else base64_string in
  let* decode := gets open_image in
  match decode payload with
  | Some image_array => ret image_array
  | None => raise (HTTPException 400 "Invalid image data")
  end.

(** [MoodDetectionResponse]. *)
Record MoodDetectionResponse := {
  det_mood : string;
  det_confidence : Q;
  det_playlist_url : option string;
  det_recommendations : list Track
}.

(** [POST /detect-mood]. *)
Definition detect_mood (image_base64 : string) : M MoodDetectionResponse :=
  endpoint
    (let* model := gets mood_model in
     let* cascade := gets face_cascade in
     if negb model || negb cascade
     then raise (HTTPException 503 "Mood detection models not loaded")
     else
       let* image_array := base64_to_image image_base64 in
       let* r := detect_mood_from_image image_array in
       match r.1 with
       | None => raise (HTTPException 400 "No face detected in image")
       | Some mood =>
           ret {| det_mood := mood; det_confidence := r.2;
                  det_playlist_url := None; det_recommendations := [] |}
       end).

(** [POST /mood-and-playlist]. *)
Definition detect_mood_and_get_playlist (image_base64 : string) (limit : Z)
    : M MoodDetectionResponse :=
  endpoint
    (let* model := gets mood_model in
     let* cascade := gets face_cascade in
     if negb model || negb cascade
     then raise (HTTPException 503 "Mood detection models not loaded")
     else
       let* client := gets spotify_client in
       if negb client
       then raise (HTTPException 503 "Spotify client not initialized")
       else
         let* image_array := base64_to_image image_base64 in
         let* r := detect_mood_from_image image_array in
         match r.1 with
         | None => raise (HTTPException 400 "No face detected in image")
         | Some mood =>
             let* tracks := search_spotify_by_mood mood limit in
             let* url :=
               match tracks with
               | [] => ret None
               | _ :: _ => create_actual_spotify_playlist tracks mood
               end in
             ret {| det_mood := mood; det_confidence := r.2;
                    det_playlist_url := url; det_recommendations := tracks |}
         end).

(* ================================================================== *)
(** ** The streaming endpoint *)

(** What [websocket.receive_json()] returns. *)
#[local] Unset Elimination Schemes.
Inductive Json :=
| JNull
| JBool (b : bool)
| JNum (n : Z)
| JStr (s : string)
| JArr (items : list Json)
| JObj (members : list (string * Json)).
#[local] Set Elimination Schemes.

(** [d.get(k)] on a [dict]. *)
Definition obj_get (k : string) (members : list (string * Json)) : option Json :=
  snd <$> List.find (λ kv, String.eqb kv.1 k) members.

(** [bool(v)]. *)
Definition json_truthy (v : Json) : bool :=
  match v with
  | JNull => false
  | JBool b => b
  | JNum n => negb (Z.eqb n 0)
  | JStr s => PyStr.nonempty s
  | JArr items => match items with [] => false | _ => true end
  | JObj members => match members with [] => false | _ => true end
  end.

(** ["image" not in data]: a key test on a [dict], an element test on a
    [list], a substring test on a [str]; [None] is the [TypeError] that any
    other value raises. *)
Definition image_not_in (data : Json) : option bool :=
  match data with
  | JObj members => Some (negb (bool_decide (is_Some (obj_get "image" members))))
  | JArr items =>
      Some (negb (existsb (λ v, match v with
                                | JStr s => String.eqb s "image"
                                | _ => false
                                end) items))
  | JStr s => Some (negb (PyStr.contains "image" s))
  | JNull | JBool _ | JNum _ => None
  end.

(** The messages sent with [send_personal_message]. *)
Inductive Reply :=
| ErrorReply (error : string)
| MoodReply (mood : option string) (confidence : Q) (timestamp : option Json)
            (recommendations : option (list Track)).

(** The [try] block of the loop body, for a [data] that passed the test. *)
Definition process_frame (data : Json) : M Reply :=
  match data with
  | JObj members =>
      match obj_get "image" members with
      | Some (JStr image) =>
          let* image_array := base64_to_image image in
          let* r := detect_mood_from_image image_array in
          let timestamp := obj_get "timestamp" members in
          let include_playlist :=
            match obj_get "include_playlist" members with
            | Some v => json_truthy v
            | None => false
            end in
          match r.1 with
          | Some mood =>
              if PyStr.nonempty mood && include_playlist then
                let* tracks := search_spotify_by_mood mood 10 in
                ret (MoodReply r.1 r.2 timestamp (Some (take 5 tracks)))
              else ret (MoodReply r.1 r.2 timestamp None)
          | None => ret (MoodReply r.1 r.2 timestamp None)
          end
      | Some _ => raise (HTTPException 400 "Invalid image data")
      | None => raise (PyError "KeyError")
      end
  | _ => raise (PyError "TypeError")
  end.

(** One iteration of the [while True] loop after [receive_json] returned
    [data]: the reply that is sent, or the exception that leaves the loop. *)
Definition handle_frame (data : Json) : M Reply :=
  match image_not_in data with
  | None => raise (PyError "TypeError")
  | Some true => ret (ErrorReply "No image data provided")
  | Some false =>
      try_except (process_frame data)
                 (λ _, ret (ErrorReply "Failed to process frame"))
  end.

(** How the handler ends. *)
Inductive Closed :=
| ClientDisconnected               (* [WebSocketDisconnect], handled *)
| HandlerFailed (e : Exn).         (* an exception left the handler *)

(** [websocket_video_mood] on the frames the client sends before it
    disconnects; a frame that is not JSON text is [None].  The result is
    the replies sent on the connection, in order, and how the handler ended. *)
Fixpoint websocket_video_mood (inbound : list (option Json)) (p : Process)
    : list Reply * Closed * Process :=
  match inbound with
  | [] => ([], ClientDisconnected, p)
  | None :: _ => ([], HandlerFailed (PyError "JSONDecodeError"), p)
  | Some data :: rest =>
      match handle_frame data p with
      | (Ok reply, p') =>
          let '(replies, closed, p'') := websocket_video_mood rest p' in
          (reply :: replies, closed, p'')
      | (Raise e, p') => ([], HandlerFailed e, p')
      end
  end.

(* ================================================================== *)
(** ** Cleanup *)

Definition inspect {A} (a : A) : {b : A | a = b} := exist _ a eq_refl.

(** The [while True] loop that lists the user's playlists page by page:
    [offset] and [playlists] (here [acc]) are its two variables. *)
Equations? fetch_playlists (offset : nat) (acc : list Playlist) (p : Process)
    : Res (list Playlist) * Process
    by wf (length (playlists (spotify p)) - offset)%nat lt :=
  fetch_playlists offset acc p
    with inspect (api_current_user_playlists 50 offset p) => {
    | exist _ (Raise e, p') _ := (Raise e, p');
    | exist _ (Ok items, p') Hcall
        with inspect (length items <? 50)%nat => {
        | exist _ true _ := (Ok (acc ++ items), p');
        | exist _ false Hlen :=
            fetch_playlists (offset + 50)%nat (acc ++ items) p' } }.
Proof.
  revert Hcall.
  unfold api_current_user_playlists, bind, emit, modify, gets, ret, raise.
  cbn. destruct (listing_ok _ _); intros [= <- <-]. cbn.
  apply Nat.ltb_ge in Hlen.
  rewrite length_take, length_drop in Hlen. lia.
Qed.

(** [playlist['name'].lower().startswith('kaguya')]; it is the test of
    the code for a name that is ASCII (see [PyStr.lower]). *)
Definition is_kaguya (pl : Playlist) : bool :=
  PyStr.startswith (PyStr.lower (playlist_name pl)) "kaguya".

(** An account all of whose playlist names are ASCII. *)
Definition ascii_names (pls : list Playlist) : Prop :=
  Forall (λ pl, PyStr.isascii (playlist_name pl) = true) pls.

(** The loop [for playlist in kaguya_playlists] with its [try] block;
    [deleted] is [deleted_playlists] so far. *)
Fixpoint delete_each (user : string) (kaguya_playlists deleted : list Playlist)
    : M (list Playlist) :=
  match kaguya_playlists with
  | [] => ret deleted
  | pl :: rest =>
      let* deleted' :=
        try_except
          (api_user_playlist_unfollow user (playlist_id pl) >>
           ret (deleted ++ [pl]))
          (λ _, ret deleted) in
      delete_each user rest deleted'
  end.

(** The JSON object the cleanup endpoint returns. *)
Record CleanupResponse := {
  cleanup_message : string;
  deleted_count : nat;
  deleted_playlists : list Playlist      (* name, id and url of each *)
}.

(** [POST /cleanup]. *)
Definition cleanup_kaguya_playlists : M CleanupResponse :=
  endpoint
    (let* sp := get_authenticated_spotify_client in
     if negb sp
     then raise (HTTPException 503 "No authenticated Spotify client available")
     else
       let* user := api_current_user in
       let* all_playlists := fetch_playlists 0 [] in
       let kaguya_playlists := filter (λ pl, is_kaguya pl = true) all_playlists in
       match kaguya_playlists with
       | [] =>
           ret {| cleanup_message := "No kaguya playlists found to delete";
                  deleted_count := 0; deleted_playlists := [] |}
       | _ :: _ =>
           let* deleted := delete_each user kaguya_playlists [] in
           emit CacheClear >>
           modify (with_created_playlists ∅) >>
           ret {| cleanup_message :=
                    "Successfully deleted " +:+ pretty (length deleted)
                    +:+ " kaguya playlists";
                  deleted_count := length deleted;
                  deleted_playlists := deleted |}
       end).

(* ================================================================== *)
(** ** The operations of the service *)

(** The operations that run against the process state. *)
Inductive Operation :=
| OpSearch (mood : string) (limit : Z)
| OpFallbackUrl (tracks : list Track) (mood : option string)
| OpDetectImage (image_array : Image)
| OpAuthClient
| OpCreatePlaylist (tracks : list Track) (mood : string)
| OpGetPlaylist (mood : string) (limit : Z)
| OpDetectMood (image_base64 : string)
| OpMoodAndPlaylist (image_base64 : string) (limit : Z)
| OpStream (inbound : list (option Json))
| OpCleanup.

(** The state an operation leaves behind. *)
Definition run (op : Operation) (p : Process) : Process :=
  match op with
  | OpSearch mood limit => (search_spotify_by_mood mood limit p).2
  | OpFallbackUrl tracks mood =>
      let _ := create_spotify_playlist_url tracks mood in p
  | OpDetectImage image_array => (detect_mood_from_image image_array p).2
  | OpAuthClient => (get_authenticated_spotify_client p).2
  | OpCreatePlaylist tracks mood => (create_actual_spotify_playlist tracks mood p).2
  | OpGetPlaylist mood limit => (get_playlist_by_mood mood limit p).2
  | OpDetectMood image_base64 => (detect_mood image_base64 p).2
  | OpMoodAndPlaylist image_base64 limit =>
      (detect_mood_and_get_playlist image_base64 limit p).2
  | OpStream inbound => (websocket_video_mood inbound p).2
  | OpCleanup => (cleanup_kaguya_playlists p).2
  end.

(** Authenticated mode: OAuth is configured, a token is cached and the
    identity check [current_user()] accepts it. *)
Definition authenticated (p : Process) : Prop :=
  spotify_oauth p = true ∧ is_Some (cached_token (spotify p))
  ∧ token_accepted (spotify p) = true.

(** Ghost observers of the trace. *)
Definition is_creation_call (e : Event) : bool :=
  match e with Api (ApiUserPlaylistCreate _ _ _) => true | _ => false end.

(** How many times [user_playlist_create] was called. *)
Definition creation_calls (tr : list Event) : nat :=
  length (filter (λ e, is_creation_call e = true) tr).
Arguments creation_calls : simpl never.

Definition api_calls (tr : list Event) : list ApiCall :=
  omap (λ e, match e with Api c => Some c | _ => None end) tr.

Definition is_cache_event (e : Event) : bool :=
  match e with Api _ => false | _ => true end.

Definition cache_events (tr : list Event) : list Event :=
  filter (λ e, is_cache_event e = true) tr.
Arguments cache_events : simpl never.

(** The playlist ids passed to [user_playlist_unfollow], oldest first. *)
Definition unfollow_calls (tr : list Event) : list string :=
  omap (λ e, match e with
             | Api (ApiUserPlaylistUnfollow _ pid) => Some pid
             | _ => None
             end) (reverse tr).
Arguments unfollow_calls : simpl never.

#[global] Instance authenticated_dec p : Decision (authenticated p).
Proof. unfold authenticated. apply _. Defined.

(** The API calls [get_authenticated_spotify_client] makes, latest first. *)
Definition auth_events (p : Process) : list Event :=
  if spotify_oauth p then
    match cached_token (spotify p) with
    | Some _ => [Api ApiCurrentUser; Api ApiGetCachedToken]
    | None => [Api ApiGetCachedToken]
    end
  else [].

(** [m] never changes [created_playlists]. *)
Definition keeps_cache {A} (m : M A) : Prop :=
  ∀ p, created_playlists (m p).2 = created_playlists p.

(* ================================================================== *)
(** ** A simulated service *)

(** Concrete data on which the statements below are exercised: a catalog
    answer with a null entry and a repeated id, an account with four
    playlists of which three carry the brand prefix, and a deletion that
    fails for one of them. *)
Module Sample.

Definition raw (i n : string) : RawTrack :=
  {| raw_id := Some i; raw_name := n; raw_artists := ["Artist"];
     raw_album := Some {| album_name := "Album";
                          album_images := ["large"; "medium"; "small"] |};
     raw_preview_url := None;
     raw_spotify_url := "https://open.spotify.com/track/" +:+ i;
     raw_duration_ms := 1000; raw_popularity := 50 |}.

Definition catalog : list (option RawTrack) :=
  [Some (raw "a" "Song A"); None; Some (raw "b" "Song B");
   Some (raw "a" "Song A again"); Some (raw "c" "Song C")].

Definition track (i : option string) (n a : option string) : Track :=
  {| track_id := i; track_name := n; track_artist := a;
     track_album := "Album"; track_image_url := None;
     track_preview_url := None; track_spotify_url := "";
     track_duration_ms := 1000; track_popularity := 50 |}.

Definition tracks : list Track :=
  [track (Some "a") (Some "Song A") (Some "Artist");
   track (Some "b") (Some "Song B") (Some "Artist")].

Definition pl (n i : string) : Playlist :=
  {| playlist_name := n; playlist_id := i;
     playlist_url := "https://open.spotify.com/playlist/" +:+ i |}.

Definition account : list Playlist :=
  [pl "Kaguya happy mood" "p1"; pl "My mix" "p2";
   pl "kaguya sad mood" "p3"; pl "KAGUYA x" "p4"].

Definition service : Spotify :=
  {| search_results := λ _ _ _, Some catalog;
     cached_token := Some "token"; token_accepted := true; user_id := "user";
     playlists := account;
     create_response := λ pls name, Some (pl name ("new" +:+ pretty (length pls)));
     add_items_ok := λ _ _, true; listing_ok := λ _, true;
     unfollow_ok := λ pid, negb (String.eqb pid "p3") |}.

Definition process : Process :=
  {| mood_model := true; face_cascade := true;
     spotify_client := true; spotify_oauth := true;
     created_playlists := ∅; spotify_market := None;
     open_image := λ _, None; spotify := service; trace := [] |}.

(** The same service without a cached OAuth token. *)
Definition anonymous : Process :=
  let sp := service in
  {| mood_model := true; face_cascade := true;
     spotify_client := true; spotify_oauth := true;
     created_playlists := ∅; spotify_market := None;
     open_image := λ _, None;
     spotify :=
       {| search_results := search_results sp; cached_token := None;
          token_accepted := false; user_id := user_id sp;
          playlists := playlists sp; create_response := create_response sp;
          add_items_ok := add_items_ok sp; listing_ok := listing_ok sp;
          unfollow_ok := unfollow_ok sp |};
     trace := [] |}.

(** A process whose Spotify client was never initialised. *)
Definition offline : Process :=
  {| mood_model := true; face_cascade := true;
     spotify_client := false; spotify_oauth := false;
     created_playlists := ∅; spotify_market := None;
     open_image := λ _, None; spotify := service; trace := [] |}.

(** Three detections; the second and the third have the same, largest area. *)
Definition small_face : Face :=
  {| face_x := 0; face_y := 0; face_w := 10; face_h := 10 |}.
Definition square_face : Face :=
  {| face_x := 5; face_y := 5; face_w := 20; face_h := 20 |}.
Definition wide_face : Face :=
  {| face_x := 1; face_y := 1; face_w := 40; face_h := 10 |}.
Definition faces : list Face := [small_face; square_face; wide_face].

Definition image : Image :=
  {| detected_faces := faces;
     prediction := λ f, if Z.eqb (face_x f) 5 then Some (3, 0.9%Q) else Some (4, 0.5%Q) |}.

(** A frame without the [image] field, and a frame with one that does
    not decode. *)
Definition frame_without_image : Json := JObj [("timestamp", JNum 1)].
Definition frame_with_image : Json :=
  JObj [("image", JStr "data:image/png;base64,AAAA"); ("timestamp", JNum 2)].

End Sample.

(** The tracks [search_spotify_by_mood] returns, read off the service. *)
Definition search_outcome (mood : string) (limit : Z) (p : Process) : list Track :=
  if spotify_client p then
    match search_results (spotify p) (get_mood_search_query mood)
            (Z.min (limit * 2) 50) (default "US" (spotify_market p)) with
    | Some items => default [] (collect_tracks limit items [] ∅)
    | None => []
    end
  else [].

(** The state [search_spotify_by_mood] leaves: one more call in the trace. *)
Definition search_state (mood : string) (limit : Z) (p : Process) : Process :=
  if spotify_client p then
    with_trace (Api (ApiSearch (get_mood_search_query mood)
                       (Z.min (limit * 2) 50)
                       (default "US" (spotify_market p))) :: trace p) p
  else p.

(** Specification of the deduplication, in the words of the spec: of the
    items that are not null, each track id is kept at its first occurrence,
    in the order of the input; [seen] are the ids met before. *)
Fixpoint first_seen (seen : gset (option string)) (items : list (option RawTrack))
    : list RawTrack :=
  match items with
  | [] => []
  | None :: rest => first_seen seen rest
  | Some t :: rest =>
      if decide (raw_id t ∈ seen) then first_seen seen rest
      else t :: first_seen ({[raw_id t]} ∪ seen) rest
  end.

(** A rectangle whose area does not overflow [int32]: every region of an
    image of fewer than [2^31] pixels. *)
Definition face_fits (f : Face) : Prop :=
  0 ≤ face_w f ∧ 0 ≤ face_h f ∧ face_w f * face_h f < 2 ^ 31.

(** What [detect_mood_from_image] returns once [face] is selected. *)
Definition classified (image_array : Image) (face : Face) : option string * Q :=
  match prediction image_array face with
  | Some (mood_index, confidence) => (Some (mood_label mood_index), confidence)
  | None => (None, 0%Q)
  end.

(* ================================================================== *)
(** ** Start-up, status and OAuth endpoints *)

Definition with_spotify_oauth (b : bool) (p : Process) : Process :=
  {| mood_model := mood_model p; face_cascade := face_cascade p;
     spotify_client := spotify_client p; spotify_oauth := b;
     created_playlists := created_playlists p;
     spotify_market := spotify_market p; open_image := open_image p;
     spotify := spotify p; trace := trace p |}.

Definition with_spotify_client (b : bool) (p : Process) : Process :=
  {| mood_model := mood_model p; face_cascade := face_cascade p;
     spotify_client := b; spotify_oauth := spotify_oauth p;
     created_playlists := created_playlists p;
     spotify_market := spotify_market p; open_image := open_image p;
     spotify := spotify p; trace := trace p |}.

(** [initialize_spotify]; [client_id] and [client_secret] are what
    [os.getenv] returns.  The two globals are assigned before the test
    search, whose omitted [market] is written as the empty string. *)
Definition initialize_spotify (client_id client_secret : option string) : M bool :=
  try_except
    (if negb (PyStr.truthy client_id) || negb (PyStr.truthy client_secret)
     then ret false
     else
       modify (with_spotify_oauth true) >>
       modify (with_spotify_client true) >>
       api_search "test" 1 "" >>
       ret true)
    (λ _, ret false).

(** The JSON object of [GET /health]. *)
Record HealthResponse := {
  health_status : string;
  mood_model_loaded : bool;
  face_cascade_loaded : bool;
  spotify_search_available : bool;
  spotify_playlist_creation : bool
}.

(** [health_check]. *)
Definition health_check : M HealthResponse :=
  let* model := gets mood_model in
  let* cascade := gets face_cascade in
  let* client := gets spotify_client in
  let* sp := get_authenticated_spotify_client in
  ret {| health_status := "healthy"; mood_model_loaded := model;
         face_cascade_loaded := cascade; spotify_search_available := client;
         spotify_playlist_creation := sp |}.

(** The JSON object of [GET /moods]. *)
Record MoodsResponse := {
  moods : list string;
  mood_descriptions : list (string * string)
}.

(** [get_available_moods]. *)
Definition get_available_moods : MoodsResponse :=
  {| moods := mood_values;
     mood_descriptions :=
       [("Happy", "Upbeat, energetic, positive music");
        ("Sad", "Melancholic, emotional, slow music");
        ("Angry", "Aggressive, rock, metal music");
        ("Fear", "Calming, ambient, soothing music");
        ("Surprise", "Experimental, electronic, dynamic music");
        ("Disgust", "Alternative, rock music");
        ("Neutral", "Balanced, popular, chill music")] |}.

(** The JSON object of [GET /spotify-auth-url]. *)
Record AuthUrlResponse := {
  auth_url : string;
  auth_redirect_uri : string;
  setup_instructions : list string;
  example_redirect : string
}.

(** [get_spotify_auth_url]; [authorize_url] is what
    [spotify_oauth.get_authorize_url()] returns and [redirect_uri] the
    attribute of the same object.  The handler has a single clause,
    [except Exception], which also catches the [HTTPException] raised in
    the [try] block. *)
Definition get_spotify_auth_url (authorize_url redirect_uri : string)
    : M AuthUrlResponse :=
  try_except
    (let* oauth := gets spotify_oauth in
     if negb oauth
     then raise (HTTPException 503 "Spotify OAuth not configured")
     else
       ret {| auth_url := authorize_url;
              auth_redirect_uri := redirect_uri;
              setup_instructions :=
                ["FIRST TIME SETUP:";
                 "1. Go to https://developer.spotify.com/dashboard";
                 "2. Select your app (or create one)";
                 "3. Click 'Edit Settings'";
                 "4. Add '" +:+ redirect_uri +:+ "' to Redirect URIs";
                 "5. Save the settings";
                 "";
                 "THEN AUTHENTICATE:";
                 "6. Visit the auth_url below";
                 "7. Authorize the application";
                 "8. You'll be redirected back with the authorization code";
                 "9. Copy the code shown on the callback page";
                 "10. Use POST /spotify-token with that code"];
              example_redirect :=
                "Example: " +:+ redirect_uri
                +:+ "?code=ABC123... (copy the ABC123... part)" |})
    (λ _, raise (HTTPException 500 "Internal server error")).

(** How a call into [spotipy] ends in [set_spotify_token]: the handler
    tells [spotipy.SpotifyException] from any other exception. *)
Inductive Outcome (A : Type) :=
| Returns (a : A)
| RaisesSpotifyException (message : string)
| RaisesOther (message : string).
Arguments Returns {A} a.
Arguments RaisesSpotifyException {A} message.
Arguments RaisesOther {A} message.

(** The keys of [token_info] and of [user_info] that the handler reads. *)
Record TokenInfo := {
  access_token : string;
  expires_in : option Z
}.

Record UserInfo := {
  user_info_id : option string;
  user_info_display_name : option string;
  user_info_email : option string
}.

(** The JSON object of [POST /spotify-token]. *)
Record TokenResponse := {
  token_status : string;
  token_message : string;
  token_user : UserInfo;
  token_expires_in : option Z
}.

(** The clause [except spotipy.SpotifyException as e]. *)
Definition spotify_exception_clause {A} (message : string) : M A :=
  if PyStr.contains "invalid_grant" message
  then raise (HTTPException 400 "Invalid or expired authorization code")
  else raise (HTTPException 400 ("Spotify error: " +:+ message)).

(** [set_spotify_token]; [get_access_token] is the code exchange of the
    OAuth object ([None] for a falsy [token_info]) and [current_user] the
    identity call of a client built on the new access token.  The handler
    assigns no global of the module; what the exchange does to the token
    cache that the OAuth object keeps is not followed here. *)
Definition set_spotify_token
    (get_access_token : string → Outcome (option TokenInfo))
    (current_user : string → Outcome UserInfo) (code : string)
    : M TokenResponse :=
  endpoint
    (let* oauth := gets spotify_oauth in
     if negb oauth
     then raise (HTTPException 503 "Spotify OAuth not configured")
     else
       match get_access_token code with
       | Returns None =>
           raise (HTTPException 400
                    "Failed to get access token - check if code is correct")
       | Returns (Some token_info) =>
           match current_user (access_token token_info) with
           | Returns user_info =>
               ret {| token_status := "success";
                      token_message :=
                        "Spotify authentication successful - real playlists will now be created";
                      token_user := user_info;
                      token_expires_in := expires_in token_info |}
           | RaisesSpotifyException message => spotify_exception_clause message
           | RaisesOther message => raise (PyError message)
           end
       | RaisesSpotifyException message => spotify_exception_clause message
       | RaisesOther message => raise (PyError message)
       end).

(* ================================================================== *)
(** ** The upload endpoint and the connection manager *)

(** The JSON object of [POST /upload-image]. *)
Record UploadResponse := {
  upload_mood : string;
  upload_confidence : Q;
  upload_filename : option string
}.

(** [upload_image_mood_detection]; [contents] are the bytes of the file
    and [pil_open] is [Image.open] followed by the conversion to an array,
    [None] when it raises.  Unlike [base64_to_image], nothing turns that
    exception into an [HTTPException]. *)
Definition upload_image_mood_detection (pil_open : string → option Image)
    (contents : string) (filename : option string) : M UploadResponse :=
  endpoint
    (let* model := gets mood_model in
     let* cascade := gets face_cascade in
     if negb model || negb cascade
     then raise (HTTPException 503 "Mood detection models not loaded")
     else
       match pil_open contents with
       | None => raise (PyError "UnidentifiedImageError")
       | Some image_array =>
           let* r := detect_mood_from_image image_array in
           match r.1 with
           | None => raise (HTTPException 400 "No face detected in image")
           | Some mood =>
               ret {| upload_mood := mood; upload_confidence := r.2;
                      upload_filename := filename |}
           end
       end).

(** [ConnectionManager]: [active_connections] is a list of sockets, a
    socket being identified by a number. *)
Definition connect (websocket : nat) (active_connections : list nat) : list nat :=
  active_connections ++ [websocket].

(** [list.remove]: the first occurrence goes; [None] is the [ValueError]
    for a value that is not in the list. *)
Fixpoint list_remove (x : nat) (l : list nat) : option (list nat) :=
  match l with
  | [] => None
  | y :: l' => if decide (y = x) then Some l' else (y ::.) <$> list_remove x l'
  end.

Definition disconnect (websocket : nat) (active_connections : list nat)
    : option (list nat) :=
  list_remove websocket active_connections.

(** The whole of [websocket_video_mood], with the manager: the socket is
    registered, the loop runs, and only [WebSocketDisconnect] is handled,
    by [manager.disconnect]. *)
Definition websocket_session (websocket : nat) (inbound : list (option Json))
    (active_connections : list nat) (p : Process)
    : list Reply * Closed * list nat * Process :=
  let registered := connect websocket active_connections in
  let '(replies, closed, p') := websocket_video_mood inbound p in
  match closed with
  | ClientDisconnected =>
      match disconnect websocket registered with
      | Some remaining => (replies, ClientDisconnected, remaining, p')
      | None => (replies, HandlerFailed (PyError "ValueError"), registered, p')
      end
  | HandlerFailed e => (replies, HandlerFailed e, registered, p')
  end.

(* ================================================================== *)
(** ** Vocabulary of the further properties *)

Definition is_listing_call (e : Event) : bool :=
  match e with Api (ApiCurrentUserPlaylists _ _) => true | _ => false end.

(** How many pages of playlists were requested. *)
Definition listing_calls (tr : list Event) : nat :=
  length (filter (λ e, is_listing_call e = true) tr).
Arguments listing_calls : simpl never.

(** The characters of a string. *)
Fixpoint chars (s : string) : list ascii :=
  match s with
  | EmptyString => []
  | String c r => c :: chars r
  end.

(** A character that may stand in a percent-encoded string. *)
Definition url_char (c : ascii) : Prop :=
  PyStr.quote_safe c = true ∨ c = "%"%char.

(** A frame on which the test ["image" not in data] does not raise: a
    JSON object, array or string. *)
Definition is_container (frame : option Json) : Prop :=
  ∃ data, frame = Some data ∧ image_not_in data ≠ None.

(** What the stream promises about one reply: an error reply carries one
    of the two messages of the handler, and recommendations come with a
    detected mood and are at most five. *)
Definition reply_well_formed (r : Reply) : Prop :=
  match r with
  | ErrorReply error =>
      error = "No image data provided" ∨ error = "Failed to process frame"
  | MoodReply mood _ _ recommendations =>
      match recommendations with
      | Some tracks => is_Some mood ∧ (length tracks ≤ 5)%nat
      | None => True
      end
  end.

(** Further concrete data: a catalog answer whose second track has a
    null album. *)
Module Sample2.

Definition broken (i n : string) : RawTrack :=
  {| raw_id := Some i; raw_name := n; raw_artists := [];
     raw_album := None; raw_preview_url := None;
     raw_spotify_url := ""; raw_duration_ms := 0; raw_popularity := 0 |}.

Definition catalog : list (option RawTrack) :=
  [Some (Sample.raw "a" "Song A"); Some (broken "x" "Song X");
   Some (Sample.raw "b" "Song B")].

Definition service : Spotify :=
  let sp := Sample.service in
  {| search_results := λ _ _ _, Some catalog;
     cached_token := cached_token sp; token_accepted := token_accepted sp;
     user_id := user_id sp; playlists := playlists sp;
     create_response := create_response sp;
     add_items_ok := λ _ _, false; listing_ok := λ o, negb (o =? 0)%nat;
     unfollow_ok := unfollow_ok sp |}.

Definition process : Process :=
  {| mood_model := true; face_cascade := true;
     spotify_client := true; spotify_oauth := true;
     created_playlists := ∅; spotify_market := None;
     open_image := λ s, if String.eqb s "AAAA" then Some Sample.image else None;
     spotify := service; trace := [] |}.

(** An authenticated process on an account without a branded playlist. *)
Definition unbranded : Process :=
  with_playlists [Sample.pl "My mix" "p2"; Sample.pl "Road trip" "p5"]
    Sample.process.

(** A process before start-up, facing a service that is down. *)
Definition down : Spotify :=
  {| search_results := λ _ _ _, None;
     cached_token := None; token_accepted := false;
     user_id := ""; playlists := [];
     create_response := λ _ _, None;
     add_items_ok := λ _ _, false; listing_ok := λ _, false;
     unfollow_ok := λ _, false |}.

Definition fresh : Process :=
  {| mood_model := true; face_cascade := true;
     spotify_client := false; spotify_oauth := false;
     created_playlists := ∅; spotify_market := None;
     open_image := λ _, None; spotify := down; trace := [] |}.

End Sample2.

(** The name and the description [create_actual_spotify_playlist] gives
    to the playlist of a mood; for an ASCII mood they are the strings of
    the code (see [PyStr.lower]). *)
Definition playlist_name_of (mood : string) : string :=
  "kaguya " +:+ PyStr.lower mood +:+ " mood".
Definition playlist_description_of (mood : string) : string :=
  "curated " +:+ PyStr.lower mood
  +:+ " playlist generated by kaguya ai mood detection".

(** The [spotify:track:] URI of a track that has an id. *)
Definition track_uri_of (t : Track) : string :=
  "spotify:track:" +:+ default "" (track_id t).

(** The part of its argument that [base64_to_image] decodes. *)
Definition data_url_payload (base64_string : string) : string :=
  if PyStr.contains "," base64_string
  then until_comma (after_comma base64_string)
  else base64_string.

(** The pair [detect_mood_from_image] returns. *)
Definition detection (image_array : Image) (p : Process) : option string * Q :=
  if mood_model p && face_cascade p then
    match detected_faces image_array with
    | [] => (None, 0%Q)
    | first :: others => classified image_array (py_max face_area first others)
    end
  else (None, 0%Q).

(** A string without a comma. *)
Definition comma_free (s : string) : Prop := PyStr.contains "," s = false.

(** Boolean form of [url_char]. *)
Definition url_charb (c : ascii) : bool :=
  PyStr.quote_safe c || Ascii.eqb c "%".

(* ================================================================== *)
(** * Properties *)

(** ** The monad and the frame of [created_playlists] *)

Ltac unfold_monad :=
  unfold endpoint, try_except, bind, ret, raise, gets, modify, emit in *.

Create HintDb frame discriminated.

Lemma keeps_cache_ret {A} (a : A) : keeps_cache (ret a).
Proof. done. Qed.
Lemma keeps_cache_raise {A} e : keeps_cache (@raise A e).
Proof. done. Qed.
Lemma keeps_cache_gets {A} (f : Process → A) : keeps_cache (gets f).
Proof. done. Qed.
Lemma keeps_cache_emit e : keeps_cache (emit e).
Proof. done. Qed.
Lemma keeps_cache_with_playlists l : keeps_cache (modify (with_playlists l)).
Proof. done. Qed.

Lemma keeps_cache_bind {A B} (m : M A) (k : A → M B) :
  keeps_cache m → (∀ a, keeps_cache (k a)) → keeps_cache (bind m k).
Proof.
  intros Hm Hk p. unfold bind. specialize (Hm p).
  destruct (m p) as [[a|e] p']; cbn in *; [|done].
  by rewrite Hk.
Qed.

Lemma keeps_cache_try_except {A} (body : M A) handler :
  keeps_cache body → (∀ e, keeps_cache (handler e)) →
  keeps_cache (try_except body handler).
Proof.
  intros Hm Hk p. unfold try_except. specialize (Hm p).
  destruct (body p) as [[a|e] p']; cbn in *; [done|].
  by rewrite Hk.
Qed.

Lemma keeps_cache_endpoint {A} (body : M A) :
  keeps_cache body → keeps_cache (endpoint body).
Proof.
  intros Hm. apply keeps_cache_try_except; [done|].
  intros []; apply keeps_cache_raise.
Qed.

#[local] Hint Resolve keeps_cache_ret keeps_cache_raise keeps_cache_gets
  keeps_cache_emit keeps_cache_with_playlists : frame.

(** Splits a monadic term along its binds, handlers and case analyses. *)
Ltac frame_step :=
  first
    [ solve [auto with frame]
    | progress cbv zeta
    | apply keeps_cache_bind; [|intros ?]
    | apply keeps_cache_try_except; [|intros ?]
    | apply keeps_cache_endpoint
    | case_match ].

Ltac frame := repeat frame_step.

Lemma keeps_cache_api_search q limit market :
  keeps_cache (api_search q limit market).
Proof. unfold api_search. frame. Qed.

Lemma keeps_cache_api_get_cached_token : keeps_cache api_get_cached_token.
Proof. unfold api_get_cached_token. frame. Qed.

Lemma keeps_cache_api_current_user : keeps_cache api_current_user.
Proof. unfold api_current_user. frame. Qed.

Lemma keeps_cache_api_user_playlist_create u n d :
  keeps_cache (api_user_playlist_create u n d).
Proof. unfold api_user_playlist_create. frame. Qed.

Lemma keeps_cache_api_playlist_add_items pid uris :
  keeps_cache (api_playlist_add_items pid uris).
Proof. unfold api_playlist_add_items. frame. Qed.

Lemma keeps_cache_api_current_user_playlists limit offset :
  keeps_cache (api_current_user_playlists limit offset).
Proof. unfold api_current_user_playlists. frame. Qed.

Lemma keeps_cache_api_user_playlist_unfollow u pid :
  keeps_cache (api_user_playlist_unfollow u pid).
Proof. unfold api_user_playlist_unfollow. frame. Qed.

#[local] Hint Resolve keeps_cache_api_search keeps_cache_api_get_cached_token
  keeps_cache_api_current_user keeps_cache_api_user_playlist_create
  keeps_cache_api_playlist_add_items keeps_cache_api_current_user_playlists
  keeps_cache_api_user_playlist_unfollow : frame.

Lemma keeps_cache_search mood limit :
  keeps_cache (search_spotify_by_mood mood limit).
Proof. unfold search_spotify_by_mood. frame. Qed.

Lemma keeps_cache_auth_client : keeps_cache get_authenticated_spotify_client.
Proof. unfold get_authenticated_spotify_client. frame. Qed.

Lemma keeps_cache_detect image_array :
  keeps_cache (detect_mood_from_image image_array).
Proof. unfold detect_mood_from_image. frame. Qed.

Lemma keeps_cache_base64_to_image s : keeps_cache (base64_to_image s).
Proof. unfold base64_to_image. frame. Qed.

#[local] Hint Resolve keeps_cache_search keeps_cache_auth_client
  keeps_cache_detect keeps_cache_base64_to_image : frame.

Lemma keeps_cache_detect_mood s : keeps_cache (detect_mood s).
Proof. unfold detect_mood. frame. Qed.

Lemma keeps_cache_process_frame data : keeps_cache (process_frame data).
Proof. unfold process_frame. frame. Qed.

Lemma keeps_cache_handle_frame data : keeps_cache (handle_frame data).
Proof.
  unfold handle_frame. pose proof (keeps_cache_process_frame data). frame.
Qed.

Lemma keeps_cache_websocket inbound p :
  created_playlists (websocket_video_mood inbound p).2 = created_playlists p.
Proof.
  revert p. induction inbound as [|[data|] rest IH]; intros p; cbn; [done| |done].
  pose proof (keeps_cache_handle_frame data p) as Hf.
  destruct (handle_frame data p) as [[reply|e] p']; cbn in *; [|done].
  specialize (IH p').
  destruct (websocket_video_mood rest p') as [[replies closed] p'']; cbn in *.
  congruence.
Qed.

(** ** Playlist creation *)

Lemma creation_calls_cons e tr :
  creation_calls (e :: tr) =
  if is_creation_call e then S (creation_calls tr) else creation_calls tr.
Proof.
  unfold creation_calls. rewrite filter_cons.
  destruct (is_creation_call e); by case_decide.
Qed.

Lemma creation_calls_auth_events p tr :
  creation_calls (auth_events p ++ tr) = creation_calls tr.
Proof.
  unfold auth_events. destruct (spotify_oauth p); [|done].
  by destruct (cached_token _).
Qed.

(** [get_authenticated_spotify_client] never raises, answers whether the
    process is in authenticated mode and only adds its calls to the trace. *)
Lemma auth_client_spec p :
  get_authenticated_spotify_client p =
  (Ok (bool_decide (authenticated p)), with_trace (auth_events p ++ trace p) p).
Proof.
  unfold get_authenticated_spotify_client, api_get_cached_token,
    api_current_user, auth_events, authenticated.
  unfold_monad. destruct p as [? ? ? oauth ? ? ? sp tr]; cbn.
  destruct sp as [? tok acc ? ? ? ? ? ?]; cbn.
  destruct oauth, tok, acc; cbn; case_bool_decide as H; try done; exfalso;
    first [ apply H; repeat split; eauto
          | destruct H as (? & [? ?] & ?); done ].
Qed.

(** With an empty track list nothing happens at all. *)
Lemma create_actual_no_tracks mood p :
  create_actual_spotify_playlist [] mood p = (Ok None, p).
Proof. done. Qed.

(** A cached mood is answered from the cache, with one lookup and no call. *)
Lemma create_actual_cached tracks mood url p :
  tracks ≠ [] →
  created_playlists p !! mood = Some url →
  create_actual_spotify_playlist tracks mood p =
  (Ok (Some url), with_trace (CacheLookup mood :: trace p) p).
Proof.
  intros Hne Hc. destruct tracks as [|t ts]; [done|].
  unfold create_actual_spotify_playlist. unfold_monad. cbn. by rewrite Hc.
Qed.

(** Without an authenticated client and without a cached URL there is no
    URL: one lookup, the calls of the identity check, nothing else. *)
Lemma create_actual_unauthenticated tracks mood p :
  tracks ≠ [] →
  created_playlists p !! mood = None →
  ¬ authenticated p →
  create_actual_spotify_playlist tracks mood p =
  (Ok None,
   with_trace (auth_events p ++ CacheLookup mood :: trace p) p).
Proof.
  intros Hne Hc Hna. destruct tracks as [|t ts]; [done|].
  unfold create_actual_spotify_playlist. unfold_monad. cbn. rewrite Hc.
  rewrite auth_client_spec. cbn.
  rewrite bool_decide_eq_false_2; [done|].
  by destruct p.
Qed.

(** Every outcome of [create_actual_spotify_playlist]: it never raises,
    and either the cache is unchanged and no playlist was stored, or the
    mood was not cached, the process is authenticated, exactly one creation
    call was made and the new URL is returned and stored under the mood. *)
Lemma create_actual_effect tracks mood p :
  let r := create_actual_spotify_playlist tracks mood p in
  (∃ o, r.1 = Ok o) ∧
  ((created_playlists r.2 = created_playlists p
    ∧ (∀ url, r.1 = Ok (Some url) →
         created_playlists p !! mood = Some url
         ∧ creation_calls (trace r.2) = creation_calls (trace p)))
   ∨ (∃ url, r.1 = Ok (Some url)
        ∧ created_playlists p !! mood = None
        ∧ authenticated p
        ∧ created_playlists r.2 = <[mood := url]> (created_playlists p)
        ∧ creation_calls (trace r.2) = S (creation_calls (trace p)))).
Proof.
  destruct tracks as [|t ts].
  { rewrite create_actual_no_tracks. cbn. split; [eauto|]. left. done. }
  destruct (created_playlists p !! mood) as [url|] eqn:Hc.
  { rewrite (create_actual_cached _ _ url) by done. cbn.
    split; [eauto|]. left. split; [done|].
    intros ? [= <-]. by rewrite creation_calls_cons. }
  destruct (decide (authenticated p)) as [Ha|Hna]; cycle 1.
  { rewrite create_actual_unauthenticated by done. cbn.
    split; [eauto|]. left. done. }
  unfold create_actual_spotify_playlist, api_current_user,
    api_user_playlist_create, api_playlist_add_items.
  generalize (collect_uris (take 50 (t :: ts)) [] ∅) as track_uris.
  intros track_uris.
  unfold_monad. cbn. rewrite Hc, auth_client_spec. cbn.
  rewrite bool_decide_eq_true_2 by done. cbn.
  destruct Ha as (Ho & Htok & Hacc). rewrite Hacc. cbn.
  destruct (create_response _ _ _) as [pl|]; cbn.
  2:{ split; [eauto|]. left. done. }
  destruct track_uris as [|u us]; cbn.
  - split; [eauto|]. right. exists (playlist_url pl).
    repeat split; try done.
    rewrite !creation_calls_cons. cbn.
    by rewrite creation_calls_auth_events, creation_calls_cons.
  - destruct (add_items_ok _ _ _); cbn.
    + split; [eauto|]. right. exists (playlist_url pl).
      repeat split; try done.
      rewrite !creation_calls_cons. cbn.
      by rewrite creation_calls_auth_events, creation_calls_cons.
    + split; [eauto|]. left. done.
Qed.

(** C9: with an empty track list the authenticated playlist creation
    returns no URL at once, whatever the mood and whatever the cache holds:
    the whole process state, ghost trace included, is unchanged, so there
    is no cache lookup, no cache write and no call to Spotify. *)
Theorem create_playlist_without_tracks_is_inert mood p :
  create_actual_spotify_playlist [] mood p = (Ok None, p)
  ∧ run (OpCreatePlaylist [] mood) p = p.
Proof. split; [apply create_actual_no_tracks|done]. Qed.

(** C2: a mood stored in [created_playlists] is answered from the cache:
    a request with tracks returns the stored URL, logs one lookup and
    calls no API.  Hence, when a first request for an uncached mood
    returns a URL, the process was authenticated, that request made exactly
    one creation call and stored exactly one entry, and a second request
    returns the same URL with no further creation call and the same cache. *)
Theorem cached_mood_reuses_playlist mood url tracks p :
  tracks ≠ [] →
  (created_playlists p !! mood = Some url →
   create_actual_spotify_playlist tracks mood p =
   (Ok (Some url), with_trace (CacheLookup mood :: trace p) p))
  ∧ (created_playlists p !! mood = None →
     (create_actual_spotify_playlist tracks mood p).1 = Ok (Some url) →
     let p1 := (create_actual_spotify_playlist tracks mood p).2 in
     authenticated p
     ∧ created_playlists p1 = <[mood := url]> (created_playlists p)
     ∧ size (created_playlists p1) = S (size (created_playlists p))
     ∧ creation_calls (trace p1) = S (creation_calls (trace p))
     ∧ ∀ tracks2, tracks2 ≠ [] →
         let r2 := create_actual_spotify_playlist tracks2 mood p1 in
         r2.1 = Ok (Some url)
         ∧ api_calls (trace r2.2) = api_calls (trace p1)
         ∧ creation_calls (trace r2.2) = S (creation_calls (trace p))
         ∧ created_playlists r2.2 = created_playlists p1).
Proof.
  intros Hne. split; [by apply create_actual_cached|].
  intros Hc Hr p1.
  destruct (create_actual_effect tracks mood p) as [_ [[_ H]|H]].
  { destruct (H url Hr) as [? _]. congruence. }
  destruct H as (url' & Hr' & _ & Ha & Hins & Hcalls).
  assert (url' = url) as -> by congruence.
  fold p1 in Hins, Hcalls.
  split; [done|]. split; [done|].
  split; [by rewrite Hins, map_size_insert_None|].
  split; [done|].
  intros tracks2 Hne2.
  rewrite (create_actual_cached _ _ url) by (by rewrite ?Hins, ?lookup_insert_eq).
  cbn. by rewrite creation_calls_cons.
Qed.

Lemma cached_mood_reuses_playlist_witness :
  Sample.tracks ≠ []
  ∧ let url := "https://open.spotify.com/playlist/new4" in
    let r1 := create_actual_spotify_playlist Sample.tracks "Happy" Sample.process in
    let r2 := create_actual_spotify_playlist Sample.tracks "Happy" r1.2 in
    r1.1 = Ok (Some url) ∧ r2.1 = Ok (Some url)
    ∧ creation_calls (trace r2.2) = 1%nat.
Proof.
  split; [done|]. intros url r1 r2.
  destruct (cached_mood_reuses_playlist "Happy" url Sample.tracks Sample.process)
    as [_ H]; [done|].
  assert (r1.1 = Ok (Some url)) as Hr by (by vm_compute).
  destruct (H eq_refl Hr) as (_ & _ & _ & _ & H2).
  destruct (H2 Sample.tracks) as (? & _ & ? & _); done.
Defined.

(** ** Search and the playlist endpoint *)

(** [search_spotify_by_mood] never raises and only extends the trace. *)
Lemma search_spec mood limit p :
  search_spotify_by_mood mood limit p =
  (Ok (search_outcome mood limit p), search_state mood limit p).
Proof.
  unfold search_spotify_by_mood, search_outcome, search_state, api_search.
  unfold_monad. destruct p as [? ? client ? ? ? ? sp tr]; cbn.
  destruct client; cbn; [|done].
  destruct (search_results _ _ _ _) as [items|]; cbn; [|done].
  by destruct (collect_tracks _ _ _ _).
Qed.

Lemma search_state_cache mood limit p :
  created_playlists (search_state mood limit p) = created_playlists p.
Proof. unfold search_state. by destruct (spotify_client p). Qed.

Lemma search_state_authenticated mood limit p :
  authenticated (search_state mood limit p) ↔ authenticated p.
Proof. unfold search_state. by destruct (spotify_client p). Qed.

(** The four outcomes of [GET /playlist/{mood}], in the order of its guards. *)
Lemma get_playlist_by_mood_spec mood limit p :
  get_playlist_by_mood mood limit p =
  if spotify_client p then
    if bool_decide (mood ∈ mood_values) then
      match search_outcome mood limit p with
      | [] => (Raise (HTTPException 404 ("No tracks found for mood: " +:+ mood)),
               search_state mood limit p)
      | t :: ts =>
          let r := create_actual_spotify_playlist (t :: ts) mood
                     (search_state mood limit p) in
          (Ok {| resp_mood := mood;
                 resp_playlist_url := match r.1 with Ok o => o | Raise _ => None end;
                 resp_tracks := t :: ts |}, r.2)
      end
    else (Raise (HTTPException 400
           "Invalid mood. Valid moods: ['Angry', 'Disgust', 'Fear', 'Happy', 'Sad', 'Surprise', 'Neutral']"), p)
  else (Raise (HTTPException 503 "Spotify client not initialized"), p).
Proof.
  unfold get_playlist_by_mood, endpoint, try_except, bind at 1, gets at 1.
  destruct (spotify_client p) eqn:Hclient; [|done].
  destruct (bool_decide (mood ∈ mood_values)); [|done].
  cbn. unfold bind at 1. rewrite search_spec.
  destruct (search_outcome mood limit p) as [|t ts]; [done|].
  unfold bind.
  destruct (create_actual_effect (t :: ts) mood (search_state mood limit p))
    as [[o Ho] _].
  destruct (create_actual_spotify_playlist _ _ _) as [r p']. cbn in *.
  by subst r.
Qed.

(** C5 (counterexample): without a Spotify client a mood outside the
    enumeration is answered with 503, not 400. *)
Lemma invalid_mood_without_client_is_503 :
  ("InvalidMood" ∉ mood_values)
  ∧ status_code_of (get_playlist_by_mood "InvalidMood" 20 Sample.offline).1 = 503
  ∧ status_code_of (get_playlist_by_mood "InvalidMood" 20 Sample.offline).1 ≠ 400.
Proof. split; [by apply (bool_decide_eq_false_1 _)|]. by split. Qed.

(** C5 (amended): for a mood of the enumeration the playlist endpoint
    answers 200 with a non-empty track list, 503 (no catalog client) or
    404 (no tracks), never 400; for any other mood it answers 400 when the
    catalog client is initialised and 503 when it is not, since the client
    is checked first. *)
Theorem playlist_endpoint_status mood limit p :
  let r := (get_playlist_by_mood mood limit p).1 in
  (mood ∈ mood_values →
   status_code_of r ≠ 400
   ∧ ((∃ resp, r = Ok resp ∧ resp_mood resp = mood ∧ resp_tracks resp ≠ [])
      ∨ (status_code_of r = 503 ∧ spotify_client p = false)
      ∨ (status_code_of r = 404 ∧ spotify_client p = true
         ∧ search_outcome mood limit p = [])))
  ∧ (mood ∉ mood_values →
     status_code_of r = if spotify_client p then 400 else 503).
Proof.
  cbv zeta. rewrite get_playlist_by_mood_spec.
  destruct (spotify_client p).
  - case_bool_decide as Hm; (split; [intros Hin | intros Hout]); try done.
    destruct (search_outcome mood limit p) as [|t ts]; cbn.
    + split; [done|]. right. right. done.
    + split; [done|]. left. eauto.
  - split; [|done]. intros _. cbn. split; [done|]. right. left. done.
Qed.

Lemma playlist_endpoint_status_witness :
  ("Happy" ∈ mood_values) ∧ ("InvalidMood" ∉ mood_values)
  ∧ status_code_of (get_playlist_by_mood "Happy" 20 Sample.process).1 = 200
  ∧ status_code_of (get_playlist_by_mood "InvalidMood" 20 Sample.process).1 = 400.
Proof.
  assert ("Happy" ∈ mood_values) as Hin by (by apply (bool_decide_eq_true_1 _)).
  assert ("InvalidMood" ∉ mood_values) as Hout by (by apply (bool_decide_eq_false_1 _)).
  split; [done|]. split; [done|]. split.
  - destruct (playlist_endpoint_status "Happy" 20 Sample.process) as [H _].
    destruct (H Hin) as [_ [(resp & -> & _)|[[_ ?]|(_ & _ & ?)]]]; done.
  - destruct (playlist_endpoint_status "InvalidMood" 20 Sample.process) as [_ H].
    apply (H Hout).
Defined.

(** ** The fallback URL *)

Lemma mood_values_cases (P : string → Prop) :
  P "Angry" → P "Disgust" → P "Fear" → P "Happy" → P "Sad" → P "Surprise" →
  P "Neutral" → ∀ mood, mood ∈ mood_values → P mood.
Proof.
  intros ? ? ? ? ? ? ? mood Hin. unfold mood_values, MOOD_LABELS in Hin.
  cbn in Hin.
  repeat (apply elem_of_cons in Hin as [->|Hin]; [done|]).
  by apply elem_of_nil in Hin.
Qed.

(** C3 (counterexample): for the known mood [Happy] and no tracks the
    generator returns no URL. *)
Lemma fallback_url_of_no_tracks_is_none :
  ("Happy" ∈ mood_values)
  ∧ ¬ ∃ url, create_spotify_playlist_url [] (Some "Happy") = Some url.
Proof. split; [by apply (bool_decide_eq_true_1 _)|]. by intros [url ?]. Qed.

(** C3 (amended): for a known mood the generator returns no URL on an
    empty track list; on a non-empty list none of whose first five tracks
    has both a name and an artist it returns the mood-only search URL,
    which is the percent-encoding of ["<mood lower-cased> music"] after the
    search prefix and contains the lower-cased mood. *)
Theorem fallback_url_mood_only mood tracks :
  mood ∈ mood_values →
  create_spotify_playlist_url [] (Some mood) = None
  ∧ (tracks ≠ [] → track_names tracks = [] →
     ∃ url, create_spotify_playlist_url tracks (Some mood) = Some url
       ∧ url = search_url_prefix +:+ PyStr.quote (PyStr.lower mood +:+ " music")
       ∧ PyStr.contains (PyStr.lower mood) url = true).
Proof.
  intros Hin. split; [done|]. intros Hne Hnames.
  destruct tracks as [|t ts]; [done|].
  unfold create_spotify_playlist_url. rewrite Hnames.
  revert mood Hin.
  apply mood_values_cases; (eexists; split; [by destruct (filter _ _)|]);
    by vm_compute.
Qed.

Lemma fallback_url_mood_only_witness :
  let nameless := [Sample.track (Some "a") None (Some "Artist")] in
  ("Happy" ∈ mood_values) ∧ nameless ≠ [] ∧ track_names nameless = []
  ∧ create_spotify_playlist_url nameless (Some "Happy")
    = Some "https://open.spotify.com/search/happy%20music".
Proof.
  intros nameless.
  assert ("Happy" ∈ mood_values) as Hin by (by apply (bool_decide_eq_true_1 _)).
  split; [done|]. split; [done|]. split; [done|].
  destruct (fallback_url_mood_only "Happy" nameless Hin) as [_ H].
  destruct H as (url & -> & -> & _); done.
Defined.

(** ** Unauthenticated mode *)

Lemma cache_events_cons e tr :
  cache_events (e :: tr) =
  if is_cache_event e then e :: cache_events tr else cache_events tr.
Proof.
  unfold cache_events. rewrite filter_cons.
  destruct (is_cache_event e); by case_decide.
Qed.

Lemma cache_events_auth_events p tr :
  cache_events (auth_events p ++ tr) = cache_events tr.
Proof.
  unfold auth_events. destruct (spotify_oauth p); [|done].
  by destruct (cached_token _).
Qed.

Lemma omap_length_le {A B} (f : A → option B) (l : list A) :
  (length (omap f l) ≤ length l)%nat.
Proof. induction l as [|x l IH]; cbn; [done|]. destruct (f x); cbn; lia. Qed.

Lemma track_names_length tracks : (length (track_names tracks) ≤ 5)%nat.
Proof.
  unfold track_names. etrans; [apply omap_length_le|].
  rewrite length_take. lia.
Qed.

(** The shape of every URL of [create_spotify_playlist_url] that is built
    from track names. *)
Lemma fallback_url_of_names tracks mood :
  tracks ≠ [] → track_names tracks ≠ [] →
  ∃ query, create_spotify_playlist_url tracks mood
             = Some (search_url_prefix +:+ PyStr.quote query)
    ∧ (query = PyStr.join " " (track_names tracks)
       ∨ ∃ m, mood = Some m
           ∧ (query = m +:+ " " +:+ PyStr.join " " (track_names tracks)
              ∨ query = m +:+ " mood " +:+ PyStr.join " " (track_names tracks))).
Proof.
  intros Hne Hnames. destruct tracks as [|t ts]; [done|].
  unfold create_spotify_playlist_url.
  destruct (track_names (t :: ts)) as [|n ns]; [done|].
  destruct mood as [m|]; cbn [PyStr.truthy default].
  - destruct (PyStr.nonempty m);
      destruct (filter _ _); eexists; (split; [done|]); eauto.
  - destruct (filter _ _); eexists; (split; [done|]); eauto.
Qed.

(** C4 (counterexample): without a cached token the playlist endpoint
    answers with tracks but with no playlist URL, although the fallback
    generator would build a search URL from these tracks; and the cache was
    looked up on the way. *)
Lemma unauthenticated_request_has_no_fallback_url :
  let r := get_playlist_by_mood "Happy" 20 Sample.anonymous in
  ¬ authenticated Sample.anonymous
  ∧ (∃ resp, r.1 = Ok resp ∧ resp_tracks resp ≠ []
       ∧ resp_playlist_url resp = None
       ∧ create_spotify_playlist_url (resp_tracks resp) (Some "Happy")
         = Some "https://open.spotify.com/search/Happy%20Song%20A%20Artist%20Song%20B%20Artist%20Song%20C%20Artist"
       ∧ resp_playlist_url resp
         ≠ create_spotify_playlist_url (resp_tracks resp) (Some "Happy"))
  ∧ cache_events (trace r.2) = [CacheLookup "Happy"].
Proof.
  split; [by intros (_ & _ & ?)|]. split.
  - eexists. split; [by vm_compute|]. by vm_compute.
  - by vm_compute.
Qed.

(** C4 (amended): without an authenticated client and with a non-empty
    track list, playlist creation looks the mood up in the cache once,
    returns the cached URL if there is one and no URL otherwise, never
    writes the cache and never calls the creation API; the playlist
    endpoint passes this result on.  The percent-encoded search URL over
    the "name artist" strings of at most the first five tracks, optionally
    prefixed by the mood, is built only by the separate function
    [create_spotify_playlist_url], a pure function of its arguments. *)
Theorem unauthenticated_playlist_request tracks mood p :
  tracks ≠ [] →
  ¬ authenticated p →
  let r := create_actual_spotify_playlist tracks mood p in
  r.1 = Ok (created_playlists p !! mood)
  ∧ created_playlists r.2 = created_playlists p
  ∧ cache_events (trace r.2) = CacheLookup mood :: cache_events (trace p)
  ∧ creation_calls (trace r.2) = creation_calls (trace p)
  ∧ (∀ limit resp,
       (get_playlist_by_mood mood limit p).1 = Ok resp →
       resp_playlist_url resp = created_playlists p !! mood)
  ∧ (length (track_names tracks) ≤ 5)%nat
  ∧ (∀ mood', track_names tracks ≠ [] →
       ∃ query, create_spotify_playlist_url tracks mood'
                  = Some (search_url_prefix +:+ PyStr.quote query)
         ∧ (query = PyStr.join " " (track_names tracks)
            ∨ ∃ m, mood' = Some m
                ∧ (query = m +:+ " " +:+ PyStr.join " " (track_names tracks)
                   ∨ query = m +:+ " mood " +:+ PyStr.join " " (track_names tracks)))).
Proof.
  intros Hne Hna.
  assert (∀ ts q, ts ≠ [] → ¬ authenticated q →
    let r := create_actual_spotify_playlist ts mood q in
    r.1 = Ok (created_playlists q !! mood)
    ∧ created_playlists r.2 = created_playlists q
    ∧ cache_events (trace r.2) = CacheLookup mood :: cache_events (trace q)
    ∧ creation_calls (trace r.2) = creation_calls (trace q)) as Hcreate.
  { intros ts q Hts Hq.
    destruct (created_playlists q !! mood) as [url|] eqn:Hc.
    - rewrite (create_actual_cached _ _ url) by done. cbn.
      by rewrite cache_events_cons, creation_calls_cons.
    - rewrite create_actual_unauthenticated by done. cbn.
      by rewrite cache_events_auth_events, creation_calls_auth_events,
        cache_events_cons, creation_calls_cons. }
  destruct (Hcreate tracks p Hne Hna) as (H1 & H2 & H3 & H4).
  repeat (split; [done|]). split; [|split].
  - intros limit resp. rewrite get_playlist_by_mood_spec.
    destruct (spotify_client p); [|done]. case_bool_decide; [|done].
    destruct (search_outcome mood limit p) as [|t ts]; [done|].
    cbn. intros [= <-]. cbn.
    destruct (Hcreate (t :: ts) (search_state mood limit p)) as (-> & _);
      [done|by rewrite search_state_authenticated|].
    by rewrite search_state_cache.
  - apply track_names_length.
  - intros mood' Hnames. by apply fallback_url_of_names.
Qed.

Lemma unauthenticated_playlist_request_witness :
  Sample.tracks ≠ [] ∧ ¬ authenticated Sample.anonymous
  ∧ (create_actual_spotify_playlist Sample.tracks "Happy" Sample.anonymous).1
    = Ok None
  ∧ create_spotify_playlist_url Sample.tracks (Some "Happy")
    = Some "https://open.spotify.com/search/Happy%20Song%20A%20Artist%20Song%20B%20Artist".
Proof.
  assert (¬ authenticated Sample.anonymous) as Hna by (by intros (_ & _ & ?)).
  split; [done|]. split; [done|].
  destruct (unauthenticated_playlist_request Sample.tracks "Happy"
              Sample.anonymous) as (-> & _); done.
Defined.

(** ** Deduplication of the search results *)

Lemma track_info_id r t : track_info r = Some t → track_id t = raw_id r.
Proof.
  unfold track_info. destruct (raw_album r); cbn; [|done]. by intros [= <-].
Qed.

(** The loop refines the specification: while fewer than [limit] tracks
    are collected, it appends the projections of the next first-seen items
    up to [limit], and raises exactly when one of these projections does. *)
Lemma collect_tracks_spec limit items : ∀ tracks seen,
  Z.of_nat (length tracks) < limit →
  collect_tracks limit items tracks seen =
  (λ new, tracks ++ new) <$>
    mapM track_info
      (take (Z.to_nat limit - length tracks) (first_seen seen items)).
Proof.
  induction items as [|[t|] rest IH]; intros tracks seen Hlt; cbn.
  - rewrite take_nil. cbn. by rewrite app_nil_r.
  - case_decide; [by apply IH|].
    replace (Z.to_nat limit - length tracks)%nat
      with (S (Z.to_nat limit - S (length tracks))) by lia.
    cbn. destruct (track_info t) as [info|]; cbn; [|done].
    rewrite length_app. cbn.
    destruct (Z.geb_spec (Z.of_nat (length tracks + 1)) limit) as [Hge|Hlt'].
    + replace (Z.to_nat limit - S (length tracks))%nat with 0%nat by lia.
      done.
    + rewrite IH by (rewrite length_app; cbn; lia).
      rewrite length_app. cbn.
      replace (length tracks + 1)%nat with (S (length tracks)) by lia.
      destruct (mapM _ _); cbn; [|done].
      by rewrite <- app_assoc.
  - by apply IH.
Qed.

Lemma first_seen_fresh seen items t :
  t ∈ first_seen seen items → raw_id t ∉ seen.
Proof.
  revert seen. induction items as [|[r|] rest IH]; intros seen; cbn.
  - by intros ?%elem_of_nil.
  - case_decide as Hin; [by apply IH|].
    intros [->|Hr]%elem_of_cons; [done|].
    apply IH in Hr. set_solver.
  - by apply IH.
Qed.

Lemma first_seen_NoDup seen items : NoDup (raw_id <$> first_seen seen items).
Proof.
  revert seen. induction items as [|[r|] rest IH]; intros seen; cbn.
  - constructor.
  - case_decide; [by apply IH|]. cbn. constructor; [|by apply IH].
    intros (t & Hid & Hin)%list_elem_of_fmap.
    apply first_seen_fresh in Hin. set_solver.
  - by apply IH.
Qed.

Lemma first_seen_sublist seen items :
  first_seen seen items `sublist_of` omap id items.
Proof.
  revert seen. induction items as [|[r|] rest IH]; intros seen; cbn.
  - constructor.
  - case_decide; [by apply sublist_cons|by apply sublist_skip].
  - by apply IH.
Qed.

Lemma mapM_track_info_ids raws tracks :
  mapM track_info raws = Some tracks → track_id <$> tracks = raw_id <$> raws.
Proof.
  revert tracks. induction raws as [|r raws IH]; intros tracks; cbn.
  - by intros [= <-].
  - destruct (track_info r) as [t|] eqn:Ht; cbn; [|done].
    destruct (mapM track_info raws) as [ts|]; cbn; [|done].
    intros [= <-]. cbn. f_equal; [by apply track_info_id|by apply IH].
Qed.

(** For a limit of at least one the claim of the spec holds: the result
    has no repeated id, lists ids in the order in which the input first
    shows them, and is no longer than [limit]. *)
Lemma search_dedup_positive_limit mood (limit : Z) p :
  (1 ≤ limit)%Z →
  let tracks := search_outcome mood limit p in
  NoDup (track_id <$> tracks)
  ∧ (Z.of_nat (length tracks) ≤ limit)%Z
  ∧ (tracks = []
     ∨ ∃ items,
         search_results (spotify p) (get_mood_search_query mood)
           (Z.min (limit * 2) 50) (default "US" (spotify_market p)) = Some items
         ∧ track_id <$> tracks
           = raw_id <$> take (Z.to_nat limit) (first_seen ∅ items)
         ∧ track_id <$> tracks `sublist_of` raw_id <$> omap id items).
Proof.
  intros Hpos. cbv zeta. unfold search_outcome.
  destruct (spotify_client p);
    [|split; [constructor|split; [cbn; lia|by left]]].
  destruct (search_results _ _ _ _) as [items|];
    [|split; [constructor|split; [cbn; lia|by left]]].
  rewrite collect_tracks_spec by (cbn; lia). cbn.
  rewrite Nat.sub_0_r.
  destruct (mapM _ _) as [tracks|] eqn:Hmap; cbn;
    [|split; [constructor|split; [cbn; lia|by left]]].
  pose proof (mapM_track_info_ids _ _ Hmap) as Hids.
  split; [|split].
  - rewrite Hids, fmap_take.
    eapply sublist_NoDup; [apply first_seen_NoDup|apply sublist_take].
  - rewrite <- (length_fmap track_id), Hids, length_fmap, length_take. lia.
  - right. exists items. split; [done|]. split; [done|].
    rewrite Hids. apply fmap_sublist.
    etrans; [apply sublist_take|apply first_seen_sublist].
Qed.

(** With a limit of zero or less the test [len(tracks) >= limit] comes
    only after the first [append]: one track is returned. *)
Lemma collect_tracks_nonpositive_limit (limit : Z) t rest :
  (limit ≤ 0)%Z →
  collect_tracks limit (Some t :: rest) [] ∅ = (λ info, [info]) <$> track_info t.
Proof.
  intros Hle. cbn -[Z.geb Z.of_nat]. case_decide; [set_solver|].
  destruct (track_info t) as [info|]; cbn -[Z.geb Z.of_nat]; [|done].
  destruct (Z.geb_spec (Z.of_nat 1) limit); [done|lia].
Qed.

(** C1 (failing input): asked for at most zero tracks, on a catalog answer
    that holds tracks, the search returns one track, more than the limit. *)
Theorem search_with_limit_zero_returns_one_track :
  let r := search_spotify_by_mood "Happy" 0 Sample.process in
  ∃ t, r.1 = Ok [t] ∧ track_id t = Some "a"
       ∧ ¬ (Z.of_nat (length [t]) ≤ 0)%Z.
Proof. eexists. split; [by vm_compute|]. split; [done|]. cbn. lia. Qed.

(** ** Face selection *)

Lemma wrap32_small z : - 2 ^ 31 ≤ z < 2 ^ 31 → wrap32 z = z.
Proof. intros Hz. unfold wrap32. rewrite Z.mod_small; lia. Qed.

Lemma face_area_fits f : face_fits f → face_area f = face_w f * face_h f.
Proof. intros (Hw & Hh & Hlt). unfold face_area. apply wrap32_small. nia. Qed.

(** Python's [max] returns the first item whose key is maximal. *)
Lemma py_max_first_maximum {A} (key : A → Z) others : ∀ first,
  ∃ i, (first :: others) !! i = Some (py_max key first others)
    ∧ ∀ j x, (first :: others) !! j = Some x →
        key x ≤ key (py_max key first others)
        ∧ (key x = key (py_max key first others) → (i ≤ j)%nat).
Proof.
  induction others as [|y others IH]; intros first; cbn [py_max].
  - exists 0%nat. split; [done|]. intros [|j] x; cbn; [|done].
    intros [= <-]. split; [lia|done].
  - destruct (Z.gtb_spec (key y) (key first)) as [Hgt|Hle].
    + destruct (IH y) as (i & Hi & Hmax). exists (S i). split; [done|].
      intros [|j] x; cbn.
      * intros [= <-]. destruct (Hmax 0%nat y eq_refl) as [Hy _]. lia.
      * intros Hj. destruct (Hmax j x Hj) as [Hx Htie].
        split; [done|]. intros Heq. specialize (Htie Heq). lia.
    + destruct (IH first) as (i & Hi & Hmax).
      destruct (Hmax 0%nat first eq_refl) as [Hfirst Hfirst_tie].
      exists (match i with O => O | S i' => S (S i') end). split.
      { by destruct i. }
      intros [|[|j]] x; cbn.
      * intros [= <-]. split; [done|]. intros Heq.
        specialize (Hfirst_tie Heq). destruct i; lia.
      * intros [= <-]. split; [lia|]. intros Heq.
        assert (i = 0%nat) as -> by (apply Nat.le_0_r, Hfirst_tie; lia).
        lia.
      * intros Hj. destruct (Hmax (S j) x Hj) as [Hx Htie].
        split; [done|]. intros Heq. specialize (Htie Heq).
        destruct i; lia.
Qed.

(** C7: on a non-empty list of detections whose areas fit [int32], the
    face handed to the classifier has the maximum area [w * h], and among
    the faces of that area it is the earliest in the detector's order; on
    an empty list the result is [(None, 0.0)] and nothing is raised,
    whatever the state of the process. *)
Theorem face_extractor_selects_largest image_array p :
  (detected_faces image_array = [] →
   detect_mood_from_image image_array p = (Ok (None, 0%Q), p))
  ∧ (∀ first others,
       detected_faces image_array = first :: others →
       Forall face_fits (first :: others) →
       mood_model p = true → face_cascade p = true →
       let best := py_max face_area first others in
       ∃ i,
         (first :: others) !! i = Some best
         ∧ (∀ j f, (first :: others) !! j = Some f →
              face_w f * face_h f ≤ face_w best * face_h best
              ∧ (face_w f * face_h f = face_w best * face_h best → (i ≤ j)%nat))
         ∧ detect_mood_from_image image_array p
           = (Ok (classified image_array best), p)).
Proof.
  split.
  - intros Hnone. unfold detect_mood_from_image. unfold_monad.
    rewrite Hnone. cbn. destruct (mood_model p); cbn; [|done].
    by destruct (face_cascade p).
  - intros first others Hfaces Hfits Hmodel Hcascade.
    destruct (py_max_first_maximum face_area others first) as (i & Hi & Hmax).
    exists i.
    assert (face_fits (py_max face_area first others)) as Hbest.
    { eapply Forall_lookup_1; [apply Hfits|apply Hi]. }
    split; [done|]. split.
    + intros j f Hj. destruct (Hmax j f Hj) as [Hle Htie].
      assert (face_fits f) as Hf by (eapply Forall_lookup_1; [apply Hfits|apply Hj]).
      rewrite !face_area_fits in Hle, Htie by done. done.
    + unfold detect_mood_from_image, classified. unfold_monad.
      rewrite Hfaces. cbn. rewrite Hmodel. cbn. rewrite Hcascade. cbn.
      by destruct (prediction _ _) as [[mood_index confidence]|].
Qed.

Lemma face_extractor_selects_largest_witness :
  Forall face_fits Sample.faces
  ∧ detect_mood_from_image Sample.image Sample.process
    = (Ok (Some "Happy", 0.9%Q), Sample.process)
  ∧ py_max face_area Sample.small_face [Sample.square_face; Sample.wide_face]
    = Sample.square_face.
Proof.
  assert (Forall face_fits Sample.faces) as Hfits.
  { repeat constructor; cbn; lia. }
  split; [done|].
  destruct (face_extractor_selects_largest Sample.image Sample.process)
    as [_ H].
  destruct (H _ _ eq_refl Hfits eq_refl eq_refl) as (i & _ & _ & ->).
  by vm_compute.
Defined.

(** ** The streaming endpoint *)

(** The handler on a stream cut in two: the second part is processed from
    the state the first part leaves, unless the handler failed before. *)
Lemma websocket_video_mood_app before after : ∀ p,
  websocket_video_mood (before ++ after) p =
  match websocket_video_mood before p with
  | (replies, ClientDisconnected, p') =>
      let '(replies', closed, p'') := websocket_video_mood after p' in
      (replies ++ replies', closed, p'')
  | (replies, HandlerFailed e, p') => (replies, HandlerFailed e, p')
  end.
Proof.
  induction before as [|[data|] before IH]; intros p; cbn.
  - by destruct (websocket_video_mood after p) as [[? ?] ?].
  - destruct (handle_frame data p) as [[reply|e] p1]; [|done].
    rewrite IH.
    destruct (websocket_video_mood before p1) as [[replies [|e]] p2]; [|done].
    by destruct (websocket_video_mood after p2) as [[? ?] ?].
  - done.
Qed.

(** Whenever the test ["image" not in data] holds, the iteration replies
    with the error and changes nothing. *)
Lemma handle_frame_image_missing data p :
  image_not_in data = Some true →
  handle_frame data p = (Ok (ErrorReply "No image data provided"), p).
Proof. intros H. unfold handle_frame. by rewrite H. Qed.

Lemma image_not_in_object members :
  obj_get "image" members = None → image_not_in (JObj members) = Some true.
Proof.
  intros H. cbn. by rewrite H.
Qed.

(** For a message that is a JSON object the claim of the spec holds:
    without the [image] field it is answered with the inline reply
    [{"error": "No image data provided"}] and leaves the process untouched;
    if the handler was alive when the message came, it goes on with the
    following messages exactly as without it. *)
Theorem frame_without_image_gets_inline_error members before after p :
  obj_get "image" members = None →
  handle_frame (JObj members) p = (Ok (ErrorReply "No image data provided"), p)
  ∧ websocket_video_mood (before ++ Some (JObj members) :: after) p =
    match websocket_video_mood before p with
    | (replies, ClientDisconnected, p') =>
        let '(replies', closed, p'') := websocket_video_mood after p' in
        (replies ++ ErrorReply "No image data provided" :: replies',
         closed, p'')
    | (replies, HandlerFailed e, p') => (replies, HandlerFailed e, p')
    end.
Proof.
  intros Hmissing. apply image_not_in_object in Hmissing.
  split; [by apply handle_frame_image_missing|].
  rewrite websocket_video_mood_app.
  destruct (websocket_video_mood before p) as [[replies [|e]] p']; [|done].
  cbn [websocket_video_mood].
  rewrite handle_frame_image_missing by done.
  by destruct (websocket_video_mood after p') as [[? ?] ?].
Qed.

Lemma frame_without_image_gets_inline_error_witness :
  obj_get "image" [("timestamp", JNum 1)] = None
  ∧ websocket_video_mood
      [Some Sample.frame_with_image; Some Sample.frame_without_image;
       Some Sample.frame_with_image] Sample.process
    = ([ErrorReply "Failed to process frame";
        ErrorReply "No image data provided";
        ErrorReply "Failed to process frame"],
       ClientDisconnected, Sample.process).
Proof.
  split; [done|].
  destruct (frame_without_image_gets_inline_error [("timestamp", JNum 1)]
              [Some Sample.frame_with_image] [Some Sample.frame_with_image]
              Sample.process eq_refl) as [_ H].
  unfold Sample.frame_without_image. cbn [app] in H. rewrite H.
  by vm_compute.
Defined.

(** C8 (failing input): the message [null] has no [image] field, but the
    test ["image" not in data] raises on it, and the test stands outside the
    [try] block of the loop: no reply is sent, the handler ends with the
    [TypeError], and the message that follows, which on its own is answered
    with the inline error, gets no reply. *)
Theorem null_frame_ends_stream :
  let following := Some Sample.frame_without_image in
  image_not_in JNull = None
  ∧ websocket_video_mood [Some JNull; following] Sample.process
    = ([], HandlerFailed (PyError "TypeError"), Sample.process)
  ∧ websocket_video_mood [following] Sample.process
    = ([ErrorReply "No image data provided"], ClientDisconnected,
       Sample.process).
Proof. cbv zeta. split; [done|]. split; by vm_compute. Qed.

(** ** Cleanup *)

Lemma api_current_user_playlists_spec limit offset p :
  api_current_user_playlists limit offset p =
  (if listing_ok (spotify p) offset
   then Ok (take limit (drop offset (playlists (spotify p))))
   else Raise (PyError "SpotifyException"),
   with_trace (Api (ApiCurrentUserPlaylists limit offset) :: trace p) p).
Proof.
  unfold api_current_user_playlists. unfold_monad. cbn.
  by destruct (listing_ok _ _).
Qed.

Ltac page_call :=
  repeat match goal with
         | H : ?x = _ |- _ =>
             match x with context [@eq_refl] => clear H end
         end;
  match goal with
  | H : api_current_user_playlists _ _ _ = _ |- _ =>
      rewrite api_current_user_playlists_spec in H;
      injection H as ? ?; subst
  end.

Lemma keeps_cache_fetch_playlists offset acc :
  keeps_cache (fetch_playlists offset acc).
Proof.
  intros p. funelim (fetch_playlists offset acc p); page_call; done.
Qed.

Lemma unfollow_calls_cons e tr :
  unfollow_calls (e :: tr) =
  unfollow_calls tr ++
  match e with Api (ApiUserPlaylistUnfollow _ pid) => [pid] | _ => [] end.
Proof.
  unfold unfollow_calls. rewrite reverse_cons, omap_app. f_equal.
  by destruct e as [| | |[]].
Qed.

Lemma unfollow_calls_auth_events p tr :
  unfollow_calls (auth_events p ++ tr) = unfollow_calls tr.
Proof.
  unfold auth_events. destruct (spotify_oauth p); [|done].
  destruct (cached_token _); cbn;
    rewrite !unfollow_calls_cons; cbn; by rewrite ?app_nil_r.
Qed.

(** When every page can be listed, the loop returns the whole account,
    whatever its size, and only extends the trace with listing calls. *)
Lemma fetch_playlists_spec offset acc p :
  (∀ o, listing_ok (spotify p) o = true) →
  (fetch_playlists offset acc p).1
  = Ok (acc ++ drop offset (playlists (spotify p)))
  ∧ (fetch_playlists offset acc p).2
    = with_trace (trace (fetch_playlists offset acc p).2) p
  ∧ unfollow_calls (trace (fetch_playlists offset acc p).2)
    = unfollow_calls (trace p).
Proof.
  funelim (fetch_playlists offset acc p); intros Hok; page_call;
    rewrite Hok in *; try done.
  - match goal with H : Ok _ = Ok _ |- _ => injection H as <- end.
    match goal with H : (_ <? _)%nat = true |- _ => apply Nat.ltb_lt in H;
      rewrite length_take in H end.
    cbn. rewrite take_ge by lia. split; [done|]. split; [done|].
    by rewrite unfollow_calls_cons, app_nil_r.
  - match goal with H : Ok _ = Ok _ |- _ => injection H as <- end.
    match goal with
    | IH : (∀ o, _) → _ |- _ => destruct (IH Hok) as (IH1 & IH2 & IH3)
    end.
    rewrite IH1, IH3. cbn. split; [|split].
    + rewrite <- app_assoc, <- drop_drop. by rewrite take_drop.
    + rewrite IH2 at 1. done.
    + by rewrite unfollow_calls_cons, app_nil_r.
Qed.

Lemma api_user_playlist_unfollow_spec user pid p :
  api_user_playlist_unfollow user pid p =
  let p1 := with_trace (Api (ApiUserPlaylistUnfollow user pid) :: trace p) p in
  if unfollow_ok (spotify p) pid
  then (Ok tt, with_playlists
                 (filter (λ pl, playlist_id pl ≠ pid) (playlists (spotify p))) p1)
  else (Raise (PyError "SpotifyException"), p1).
Proof.
  unfold api_user_playlist_unfollow. unfold_monad. cbn.
  by destruct (unfollow_ok _ _).
Qed.

Lemma filter_all {A} (P : A → Prop) `{!∀ x, Decision (P x)} (l : list A) :
  (∀ x, P x) → filter P l = l.
Proof.
  intros HP. induction l as [|x l IH]; [done|].
  by rewrite filter_cons_True, IH.
Qed.

Lemma filter_all_elem {A} (P : A → Prop) `{!∀ x, Decision (P x)} (l : list A) :
  (∀ x, x ∈ l → P x) → filter P l = l.
Proof.
  induction l as [|x l IH]; intros HP; [done|].
  rewrite filter_cons_True, IH; [done| |]; intros; apply HP; set_solver.
Qed.

Lemma list_case_nonempty {A B} (l : list A) (a b : B) :
  l ≠ [] → match l with [] => a | _ :: _ => b end = b.
Proof. by destruct l. Qed.

Lemma keeps_cache_delete_each user kaguya : ∀ deleted,
  keeps_cache (delete_each user kaguya deleted).
Proof.
  induction kaguya as [|pl rest IH]; intros deleted; cbn [delete_each]; frame.
Qed.

(** One iteration of the deletion loop. *)
Lemma delete_each_cons user pl rest deleted p :
  delete_each user (pl :: rest) deleted p =
  let p1 := with_trace
              (Api (ApiUserPlaylistUnfollow user (playlist_id pl)) :: trace p) p in
  if unfollow_ok (spotify p) (playlist_id pl)
  then delete_each user rest (deleted ++ [pl])
         (with_playlists
            (filter (λ x, playlist_id x ≠ playlist_id pl) (playlists (spotify p)))
            p1)
  else delete_each user rest deleted p1.
Proof.
  cbn [delete_each]. unfold bind at 1, try_except, bind at 1.
  rewrite api_user_playlist_unfollow_spec. cbn zeta.
  by destruct (unfollow_ok _ _).
Qed.

(** The deletion loop attempts every playlist in order, reports those whose
    deletion succeeded, which are then gone from the account, and goes on
    after a failure. *)
Lemma delete_each_spec user kaguya : ∀ deleted p,
  let ok := λ pl, unfollow_ok (spotify p) (playlist_id pl) = true in
  let r := delete_each user kaguya deleted p in
  r.1 = Ok (deleted ++ filter ok kaguya)
  ∧ created_playlists r.2 = created_playlists p
  ∧ unfollow_ok (spotify r.2) = unfollow_ok (spotify p)
  ∧ unfollow_calls (trace r.2)
    = unfollow_calls (trace p) ++ (playlist_id <$> kaguya)
  ∧ playlists (spotify r.2)
    = filter (λ pl, playlist_id pl ∉ playlist_id <$> filter ok kaguya)
        (playlists (spotify p)).
Proof.
  induction kaguya as [|pl rest IH]; intros deleted p; cbn zeta.
  { cbn. rewrite !app_nil_r. repeat split; try done.
    rewrite filter_all; [done|]. intros x. apply not_elem_of_nil. }
  rewrite delete_each_cons, filter_cons. cbn zeta.
  destruct (unfollow_ok (spotify p) (playlist_id pl)) eqn:Hok.
  - rewrite decide_True by done.
    match goal with |- context [delete_each user rest ?d ?q] =>
      destruct (IH d q) as (IH1 & IH2 & IH3 & IH4 & IH5) end.
    rewrite IH1, IH2, IH3, IH4, IH5. cbn.
    rewrite unfollow_calls_cons. cbn.
    rewrite <- !app_assoc. repeat split; try done.
    rewrite list_filter_filter. apply list_filter_iff.
    intros x. cbn. rewrite not_elem_of_cons. tauto.
  - rewrite decide_False by done.
    match goal with |- context [delete_each user rest ?d ?q] =>
      destruct (IH d q) as (IH1 & IH2 & IH3 & IH4 & IH5) end.
    rewrite IH1, IH2, IH3, IH4, IH5. cbn.
    rewrite unfollow_calls_cons. cbn.
    rewrite <- !app_assoc. repeat split; done.
Qed.



(** ** The frame of the cache *)

Lemma base64_to_image_state s p : (base64_to_image s p).2 = p.
Proof.
  unfold base64_to_image. unfold_monad. cbn. by destruct (open_image p _).
Qed.

Lemma detect_mood_from_image_state image_array p :
  (detect_mood_from_image image_array p).2 = p.
Proof.
  unfold detect_mood_from_image. unfold_monad. cbn.
  destruct (mood_model p); cbn; [|done].
  destruct (face_cascade p); cbn; [|done].
  destruct (detected_faces image_array); cbn; [done|].
  by destruct (prediction _ _) as [[? ?]|].
Qed.

(** What a playlist creation does to the cache, seen from the caller. *)
Lemma create_actual_cache tracks mood p :
  let c := created_playlists p in
  let c' := created_playlists (create_actual_spotify_playlist tracks mood p).2 in
  c' = c ∨ (authenticated p ∧ c !! mood = None ∧ ∃ url, c' = <[mood := url]> c).
Proof.
  destruct (create_actual_effect tracks mood p)
    as [_ [[Hsame _]|(url & _ & ? & ? & ? & _)]]; [by left|].
  right. eauto.
Qed.

Lemma get_playlist_cache mood limit p :
  let c := created_playlists p in
  let c' := created_playlists (get_playlist_by_mood mood limit p).2 in
  c' = c ∨ (authenticated p ∧ c !! mood = None ∧ ∃ url, c' = <[mood := url]> c).
Proof.
  cbv zeta. rewrite get_playlist_by_mood_spec.
  destruct (spotify_client p) eqn:Hclient; [|by left].
  case_bool_decide; [|by left].
  destruct (search_outcome mood limit p) as [|t ts].
  { left. apply search_state_cache. }
  cbn.
  destruct (create_actual_cache (t :: ts) mood (search_state mood limit p))
    as [Hsame|(Ha & Hc & url & Hins)].
  - left. by rewrite Hsame, search_state_cache.
  - right. apply search_state_authenticated in Ha.
    rewrite search_state_cache in Hc, Hins. eauto.
Qed.

Lemma mood_and_playlist_cache image_base64 limit p :
  let c := created_playlists p in
  let c' := created_playlists
              (detect_mood_and_get_playlist image_base64 limit p).2 in
  c' = c
  ∨ (authenticated p ∧ ∃ mood url, c !! mood = None ∧ c' = <[mood := url]> c).
Proof.
  cbv zeta.
  remember (detect_mood_and_get_playlist image_base64 limit p) as res eqn:Hres.
  unfold detect_mood_and_get_playlist, endpoint, try_except in Hres.
  unfold bind at 1, gets at 1 in Hres. unfold bind at 1, gets at 1 in Hres.
  destruct (negb (mood_model p) || negb (face_cascade p));
    [subst res; by left|].
  unfold bind at 1, gets at 1 in Hres.
  destruct (negb (spotify_client p)); [subst res; by left|].
  unfold bind at 1 in Hres.
  pose proof (base64_to_image_state image_base64 p) as Hb.
  destruct (base64_to_image image_base64 p) as [[image_array|[]] p1];
    cbn in Hb; subst p1; [|subst res; by left..].
  unfold bind at 1 in Hres.
  pose proof (detect_mood_from_image_state image_array p) as Hd.
  destruct (detect_mood_from_image image_array p) as [[[mood conf]|[]] p1];
    cbn in Hd; subst p1; [|subst res; by left..].
  cbn [fst] in Hres. destruct mood as [mood|]; [|subst res; by left].
  unfold bind at 1 in Hres. rewrite search_spec in Hres.
  destruct (search_outcome mood limit p) as [|t ts].
  { subst res. left. cbn. apply search_state_cache. }
  unfold bind at 1 in Hres.
  destruct (create_actual_effect (t :: ts) mood (search_state mood limit p))
    as [[o Ho] _].
  pose proof (create_actual_cache (t :: ts) mood (search_state mood limit p))
    as Hc.
  destruct (create_actual_spotify_playlist _ _ _) as [r p2].
  cbn in Ho, Hc. subst r res. cbn.
  rewrite search_state_cache, search_state_authenticated in Hc.
  destruct Hc as [?|(? & ? & url & ?)]; [by left|]. right. eauto.
Qed.

Lemma cleanup_cache p :
  let c := created_playlists p in
  let c' := created_playlists (cleanup_kaguya_playlists p).2 in
  c' = c ∨ (authenticated p ∧ c' = ∅).
Proof.
  cbv zeta.
  remember (cleanup_kaguya_playlists p) as res eqn:Hres.
  unfold cleanup_kaguya_playlists, endpoint, try_except in Hres.
  unfold bind at 1 in Hres. rewrite auth_client_spec in Hres.
  case_bool_decide as Hauth; [|subst res; by left]. cbn [negb] in Hres.
  unfold bind at 1 in Hres.
  pose proof (keeps_cache_api_current_user
                (with_trace (auth_events p ++ trace p) p)) as H1.
  destruct (api_current_user _) as [[user|[]] p1]; cbn in H1;
    [|subst res; by left..].
  unfold bind at 1 in Hres.
  pose proof (keeps_cache_fetch_playlists 0 [] p1) as H2.
  destruct (fetch_playlists 0 [] p1) as [[fetched|[]] p2]; cbn in H2;
    [|subst res; left; cbn; congruence..].
  destruct (filter _ fetched) as [|m ms];
    [subst res; left; cbn; congruence|].
  unfold bind at 1 in Hres.
  pose proof (keeps_cache_delete_each user (m :: ms) [] p2) as H3.
  destruct (delete_each user (m :: ms) [] p2) as [[deleted|[]] p3]; cbn in H3;
    [|subst res; left; cbn; congruence..].
  subst res. right. done.
Qed.



(* ================================================================== *)
(** * Further properties *)

(** ** Search *)

(** X1: the search never raises.  Without a catalog client it returns the
    empty list and makes no call; with one it makes exactly one search
    call, asking for [min(2 * limit, 50)] results, and a call that raises
    gives the empty list. *)
Theorem search_failure_gives_empty_list mood limit p :
  let r := search_spotify_by_mood mood limit p in
  let q := get_mood_search_query mood in
  let n := Z.min (limit * 2) 50 in
  let m := default "US" (spotify_market p) in
  (∃ tracks, r.1 = Ok tracks)
  ∧ (spotify_client p = false → r = (Ok [], p))
  ∧ (spotify_client p = true →
     n ≤ 50
     ∧ api_calls (trace r.2) = ApiSearch q n m :: api_calls (trace p)
     ∧ (search_results (spotify p) q n m = None → r.1 = Ok [])).
Proof.
  cbv zeta. rewrite search_spec. unfold search_outcome, search_state.
  split; [by eexists|]. split.
  - by intros ->.
  - intros ->. split; [lia|]. split; [done|]. by intros ->.
Qed.

Lemma search_failure_gives_empty_list_witness :
  spotify_client Sample.offline = false
  ∧ search_spotify_by_mood "Happy" 20 Sample.offline = (Ok [], Sample.offline)
  ∧ api_calls (trace (search_spotify_by_mood "Happy" 20 Sample.process).2)
    = [ApiSearch "happy upbeat pop dance bollywood energetic" 40 "US"].
Proof.
  split; [done|].
  destruct (search_failure_gives_empty_list "Happy" 20 Sample.offline)
    as (_ & Hoff & _).
  destruct (search_failure_gives_empty_list "Happy" 20 Sample.process)
    as (_ & _ & Hon).
  split; [by apply Hoff|].
  by destruct (Hon eq_refl) as (_ & -> & _).
Defined.

(** X2: asked for at least one track, the search returns tracks with no
    repeated id, at most [limit] of them, and either none or the first
    [limit] distinct ids of the catalog answer, in the order of the answer. *)
Theorem search_result_bounded_distinct mood (limit : Z) p tracks :
  1 ≤ limit →
  (search_spotify_by_mood mood limit p).1 = Ok tracks →
  NoDup (track_id <$> tracks)
  ∧ Z.of_nat (length tracks) ≤ limit
  ∧ (tracks = []
     ∨ ∃ items,
         search_results (spotify p) (get_mood_search_query mood)
           (Z.min (limit * 2) 50) (default "US" (spotify_market p)) = Some items
         ∧ track_id <$> tracks
           = raw_id <$> take (Z.to_nat limit) (first_seen ∅ items)).
Proof.
  intros Hpos. rewrite search_spec. cbn. intros [= <-].
  destruct (search_dedup_positive_limit mood limit p Hpos)
    as (Hnodup & Hlen & Hitems).
  split; [done|]. split; [done|].
  destruct Hitems as [->|(items & Hitems & Hids & _)]; [by left|].
  right. by exists items.
Qed.

Lemma search_result_bounded_distinct_witness :
  (1 ≤ 2)%Z
  ∧ (∃ tracks,
       (search_spotify_by_mood "Happy" 2 Sample.process).1 = Ok tracks
       ∧ track_id <$> tracks = [Some "a"; Some "b"]
       ∧ NoDup (track_id <$> tracks)).
Proof.
  split; [lia|].
  exists (search_outcome "Happy" 2 Sample.process).
  assert ((search_spotify_by_mood "Happy" 2 Sample.process).1
          = Ok (search_outcome "Happy" 2 Sample.process)) as Hrun
    by (by rewrite search_spec).
  split; [done|]. split; [by vm_compute|].
  by destruct (search_result_bounded_distinct "Happy" 2 Sample.process _
                 ltac:(lia) Hrun) as [? _].
Defined.

(** X3: one track whose album is null, among the first-seen tracks that
    the loop reaches, makes the whole search return the empty list. *)
Theorem search_malformed_track_voids_result mood (limit : Z) p items t :
  1 ≤ limit →
  spotify_client p = true →
  search_results (spotify p) (get_mood_search_query mood)
    (Z.min (limit * 2) 50) (default "US" (spotify_market p)) = Some items →
  t ∈ take (Z.to_nat limit) (first_seen ∅ items) →
  raw_album t = None →
  (search_spotify_by_mood mood limit p).1 = Ok [].
Proof.
  intros Hpos Hclient Hitems Hin Halbum.
  rewrite search_spec. cbn. unfold search_outcome.
  rewrite Hclient, Hitems, collect_tracks_spec by (cbn; lia).
  cbn. rewrite Nat.sub_0_r.
  destruct (mapM track_info _) as [tracks|] eqn:Hmap; [|done].
  assert (is_Some (mapM track_info
            (take (Z.to_nat limit) (first_seen ∅ items)))) as Hsome by eauto.
  apply mapM_is_Some in Hsome.
  rewrite Forall_forall in Hsome. apply Hsome in Hin as [info Hinfo].
  unfold track_info in Hinfo. by rewrite Halbum in Hinfo.
Qed.

Lemma search_malformed_track_voids_result_witness :
  (1 ≤ 20)%Z
  ∧ Sample2.broken "x" "Song X"
    ∈ take (Z.to_nat 20) (first_seen ∅ Sample2.catalog)
  ∧ (search_spotify_by_mood "Happy" 20 Sample2.process).1 = Ok [].
Proof.
  assert (Sample2.broken "x" "Song X"
          ∈ take (Z.to_nat 20) (first_seen ∅ Sample2.catalog)) as Hin.
  { vm_compute. apply list_elem_of_lookup. by exists 1%nat. }
  split; [lia|]. split; [done|].
  by apply (search_malformed_track_voids_result "Happy" 20 Sample2.process
              Sample2.catalog (Sample2.broken "x" "Song X")).
Defined.

(** ** The mood tables *)

(** X4: the three mood tables agree: a mood is in the enumeration that
    the playlist endpoint accepts exactly when it has a search query of
    its own, and exactly when [GET /moods] describes it; and [GET /moods]
    lists the enumeration. *)
Theorem mood_tables_agree mood :
  (mood ∈ mood_values ↔ get_mood_search_query mood ≠ "pop music")
  ∧ (mood ∈ mood_values ↔ mood ∈ (mood_descriptions get_available_moods).*1)
  ∧ moods get_available_moods = mood_values.
Proof.
  split; [|split; [|done]].
  - split.
    + revert mood. by apply mood_values_cases.
    + unfold get_mood_search_query.
      repeat match goal with
             | |- context [String.eqb mood ?m] =>
                 destruct (String.eqb_spec mood m) as [->|?];
                   [intros _; by apply (bool_decide_eq_true_1 _)|]
             end.
      done.
  - split.
    + revert mood. apply mood_values_cases; by apply (bool_decide_eq_true_1 _).
    + cbn. intros Hin.
      repeat (apply elem_of_cons in Hin as [->|Hin];
              [by apply (bool_decide_eq_true_1 _)|]).
      by apply elem_of_nil in Hin.
Qed.

(** X5: the label of the classifier is in the enumeration exactly when the
    index is between 0 and 6, and is ["Unknown"] otherwise; with a catalog
    client, the playlist endpoint rejects the label with 400 exactly in the
    second case. *)
Theorem detected_label_and_playlist_validation (i : Z) limit p :
  (0 ≤ i ≤ 6 → mood_label i ∈ mood_values)
  ∧ (¬ (0 ≤ i ≤ 6) → mood_label i = "Unknown")
  ∧ (spotify_client p = true →
     status_code_of (get_playlist_by_mood (mood_label i) limit p).1 = 400
     ↔ ¬ (0 ≤ i ≤ 6)).
Proof.
  assert (0 ≤ i ≤ 6 → mood_label i ∈ mood_values) as Hin.
  { intros Hi.
    assert (i = 0 ∨ i = 1 ∨ i = 2 ∨ i = 3 ∨ i = 4 ∨ i = 5 ∨ i = 6)
      as [->|[->|[->|[->|[->|[->| ->]]]]]] by lia;
      by apply (bool_decide_eq_true_1 _). }
  assert (¬ (0 ≤ i ≤ 6) → mood_label i = "Unknown") as Hout.
  { intros Hi. unfold mood_label, MOOD_LABELS. cbn -[Z.eqb].
    repeat match goal with
           | |- context [Z.eqb ?k i] => destruct (Z.eqb_spec k i); [lia|]
           end.
    done. }
  split; [done|]. split; [done|].
  intros Hclient. rewrite get_playlist_by_mood_spec, Hclient.
  destruct (decide (0 ≤ i ≤ 6)) as [Hi|Hi].
  - rewrite bool_decide_eq_true_2 by auto.
    destruct (search_outcome _ _ _); cbn; split; (done || lia).
  - rewrite Hout by done.
    rewrite bool_decide_eq_false_2 by (by apply (bool_decide_eq_false_1 _)).
    done.
Qed.

Lemma detected_label_and_playlist_validation_witness :
  (0 ≤ 3 ≤ 6)%Z ∧ mood_label 3 = "Happy" ∧ mood_label 7 = "Unknown"
  ∧ status_code_of (get_playlist_by_mood (mood_label 7) 20 Sample.process).1
    = 400.
Proof.
  split; [lia|]. split; [done|].
  destruct (detected_label_and_playlist_validation 7 20 Sample.process)
    as (_ & Hout & Hstatus).
  split; [apply Hout; lia|]. apply Hstatus; [done|lia].
Defined.

(** ** Playlist creation in authenticated mode *)

Lemma collect_uris_spec tracks : ∀ acc seen,
  NoDup acc → (∀ u, u ∈ seen ↔ u ∈ acc) →
  NoDup (collect_uris tracks acc seen)
  ∧ (∀ u, u ∈ collect_uris tracks acc seen ↔
       u ∈ acc ∨ ∃ t, t ∈ tracks ∧ PyStr.truthy (track_id t) = true
                      ∧ u = track_uri_of t)
  ∧ (length (collect_uris tracks acc seen) ≤ length acc + length tracks)%nat.
Proof.
  induction tracks as [|t rest IH]; intros acc seen Hnd Hseen; cbn.
  { split; [done|]. split; [|lia]. intros u. split; [auto|].
    intros [?|(t & Hin & _)]; [done|]. by apply elem_of_nil in Hin. }
  destruct (PyStr.truthy (track_id t)) eqn:Hid.
  - fold (track_uri_of t). case_decide as Hin.
    + destruct (IH acc seen Hnd Hseen) as (IH1 & IH2 & IH3).
      split; [done|]. split; [|lia]. intros u. rewrite IH2. split.
      * intros [?|(t' & ? & ? & ?)]; [by left|].
        right. exists t'. by rewrite elem_of_cons; auto.
      * intros [?|(t' & [->|?]%elem_of_cons & ? & ->)]; [by left| |].
        -- left. by apply Hseen.
        -- right. eauto.
    + destruct (IH (acc ++ [track_uri_of t]) ({[track_uri_of t]} ∪ seen))
        as (IH1 & IH2 & IH3).
      { apply NoDup_app. split; [done|]. split; [|apply NoDup_singleton].
        intros u Hu ->%list_elem_of_singleton. by apply Hin, Hseen. }
      { intros u. rewrite elem_of_union, elem_of_singleton, elem_of_app,
          list_elem_of_singleton, Hseen. tauto. }
      split; [done|]. split.
      * intros u. rewrite IH2, elem_of_app, list_elem_of_singleton. split.
        -- intros [[?| ->]|(t' & ? & ? & ?)]; [by left| |].
           ++ right. exists t. by rewrite elem_of_cons; auto.
           ++ right. exists t'. by rewrite elem_of_cons; auto.
        -- intros [?|(t' & [->|?]%elem_of_cons & ? & ->)]; [auto|auto|].
           right. eauto.
      * rewrite length_app in IH3. cbn in IH3. lia.
  - destruct (IH acc seen Hnd Hseen) as (IH1 & IH2 & IH3).
    split; [done|]. split; [|lia]. intros u. rewrite IH2. split.
    + intros [?|(t' & ? & ? & ?)]; [by left|].
      right. exists t'. by rewrite elem_of_cons; auto.
    + intros [?|(t' & [->|?]%elem_of_cons & Ht & ->)]; [by left|congruence|].
      right. eauto.
Qed.

(** X6: the track URIs that playlist creation sends to Spotify hold no
    duplicate, are at most 50, and are exactly the [spotify:track:<id>]
    URIs of those of the first 50 tracks that have an id. *)
Theorem playlist_uris_deduplicated tracks :
  let uris := collect_uris (take 50 tracks) [] ∅ in
  NoDup uris
  ∧ (length uris ≤ 50)%nat
  ∧ (∀ u, u ∈ uris ↔
       ∃ t, t ∈ take 50 tracks ∧ PyStr.truthy (track_id t) = true
            ∧ u = track_uri_of t).
Proof.
  destruct (collect_uris_spec (take 50 tracks) [] ∅) as (H1 & H2 & H3).
  { constructor. }
  { intros u. by rewrite elem_of_empty, elem_of_nil. }
  split; [done|]. split.
  - cbn in H3. rewrite length_take in H3. lia.
  - intros u. rewrite H2. split; [|auto].
    intros [Hnil|?]; [|done]. by apply elem_of_nil in Hnil.
Qed.

(** In authenticated mode, for an uncached mood, the three ways a playlist
    creation ends: the creation call raises; the playlist is created but
    adding the tracks raises; everything succeeds. *)
Lemma create_actual_authenticated tracks mood p :
  tracks ≠ [] → created_playlists p !! mood = None → authenticated p →
  let uris := collect_uris (take 50 tracks) [] ∅ in
  let tr :=
    Api (ApiUserPlaylistCreate (user_id (spotify p)) (playlist_name_of mood)
           (playlist_description_of mood))
    :: Api ApiCurrentUser :: auth_events p ++ CacheLookup mood :: trace p in
  create_actual_spotify_playlist tracks mood p =
  match create_response (spotify p) (playlists (spotify p))
          (playlist_name_of mood) with
  | None => (Ok None, with_trace tr p)
  | Some pl =>
      let q := with_playlists (pl :: playlists (spotify p)) p in
      let stored tr' :=
        (Ok (Some (playlist_url pl)),
         with_created_playlists
           (<[mood := playlist_url pl]> (created_playlists p))
           (with_trace (CacheStore mood (playlist_url pl) :: tr') q)) in
      match uris with
      | [] => stored tr
      | _ :: _ =>
          let tr' := Api (ApiPlaylistAddItems (playlist_id pl) uris) :: tr in
          if add_items_ok (spotify p) (playlist_id pl) uris
          then stored tr'
          else (Ok None, with_trace tr' q)
      end
  end.
Proof.
  intros Hne Hc Ha. destruct tracks as [|t ts]; [done|].
  cbv zeta.
  unfold create_actual_spotify_playlist, api_current_user,
    api_user_playlist_create, api_playlist_add_items,
    playlist_name_of, playlist_description_of.
  generalize (collect_uris (take 50 (t :: ts)) [] ∅) as uris. intros uris.
  unfold_monad. cbn. rewrite Hc, auth_client_spec. cbn.
  rewrite bool_decide_eq_true_2 by done. cbn.
  destruct Ha as (Ho & Htok & Hacc). rewrite Hacc. cbn.
  destruct (create_response _ _ _) as [pl|]; cbn; [|done].
  destruct uris as [|u us]; cbn; [done|].
  by destruct (add_items_ok _ _ _).
Qed.

Lemma api_calls_auth_events p tr :
  authenticated p →
  api_calls (auth_events p ++ tr) = ApiCurrentUser :: ApiGetCachedToken :: api_calls tr.
Proof.
  intros (Ho & [tok Htok] & _). unfold auth_events. by rewrite Ho, Htok.
Qed.

(** X7: in authenticated mode, for an uncached ASCII mood, when Spotify
    accepts the creation and the tracks, playlist creation returns the URL
    of the new playlist, stores it under the mood, and has made, in this
    order, the token lookup, two identity calls, one creation call with the
    name ["kaguya <mood lower-cased> mood"], and one call that adds the
    deduplicated URIs (none when no track has an id).  The mood is ASCII
    so that the name is the one the code sends. *)
Theorem playlist_creation_succeeds tracks mood p pl :
  tracks ≠ [] → created_playlists p !! mood = None → authenticated p →
  PyStr.isascii mood = true →
  let uris := collect_uris (take 50 tracks) [] ∅ in
  create_response (spotify p) (playlists (spotify p)) (playlist_name_of mood)
  = Some pl →
  (uris = [] ∨ add_items_ok (spotify p) (playlist_id pl) uris = true) →
  let r := create_actual_spotify_playlist tracks mood p in
  r.1 = Ok (Some (playlist_url pl))
  ∧ created_playlists r.2 = <[mood := playlist_url pl]> (created_playlists p)
  ∧ playlists (spotify r.2) = pl :: playlists (spotify p)
  ∧ api_calls (trace r.2)
    = match uris with
      | [] => []
      | _ :: _ => [ApiPlaylistAddItems (playlist_id pl) uris]
      end
      ++ [ApiUserPlaylistCreate (user_id (spotify p)) (playlist_name_of mood)
            (playlist_description_of mood);
          ApiCurrentUser; ApiCurrentUser; ApiGetCachedToken]
      ++ api_calls (trace p).
Proof.
  intros Hne Hc Ha _ uris Hcreate Hadd r. subst r.
  rewrite create_actual_authenticated by done. fold uris.
  rewrite Hcreate. cbv zeta.
  destruct uris as [|u us] eqn:Huris.
  - cbn. repeat split; try done.
    unfold api_calls. cbn. fold (api_calls (auth_events p ++ CacheLookup mood :: trace p)).
    by rewrite api_calls_auth_events.
  - destruct Hadd as [?|Hadd]; [done|]. rewrite Hadd. cbn.
    repeat split; try done.
    unfold api_calls. cbn. fold (api_calls (auth_events p ++ CacheLookup mood :: trace p)).
    by rewrite api_calls_auth_events.
Qed.

Lemma playlist_creation_succeeds_witness :
  Sample.tracks ≠ [] ∧ authenticated Sample.process
  ∧ PyStr.isascii "Happy" = true
  ∧ let r := create_actual_spotify_playlist Sample.tracks "Happy" Sample.process in
    r.1 = Ok (Some "https://open.spotify.com/playlist/new4")
    ∧ api_calls (trace r.2)
      = [ApiPlaylistAddItems "new4" ["spotify:track:a"; "spotify:track:b"];
         ApiUserPlaylistCreate "user" "kaguya happy mood"
           "curated happy playlist generated by kaguya ai mood detection";
         ApiCurrentUser; ApiCurrentUser; ApiGetCachedToken].
Proof.
  assert (authenticated Sample.process) as Ha.
  { split; [done|]. split; [by eexists|done]. }
  split; [done|]. split; [done|]. split; [done|].
  destruct (playlist_creation_succeeds Sample.tracks "Happy" Sample.process
              (Sample.pl "kaguya happy mood" "new4"))
    as (H1 & _ & _ & H2); [done..|by right|].
  cbv zeta. by rewrite H1, H2.
Defined.





(** ** Identity check and status endpoints *)

(** X10: the identity check never raises, answers [True] exactly in
    authenticated mode, changes nothing in the process but the trace, makes
    no call at all when OAuth is not configured and at most two calls
    otherwise, none of them a playlist creation. *)
Theorem auth_client_outcome p :
  let r := get_authenticated_spotify_client p in
  (∃ b, r.1 = Ok b)
  ∧ (r.1 = Ok true ↔ authenticated p)
  ∧ r.2 = with_trace (trace r.2) p
  ∧ (spotify_oauth p = false → r.2 = p)
  ∧ (length (api_calls (trace r.2)) ≤ length (api_calls (trace p)) + 2)%nat
  ∧ creation_calls (trace r.2) = creation_calls (trace p).
Proof.
  cbv zeta. rewrite auth_client_spec. cbn.
  split; [by eexists|]. split; [|split; [done|split; [|split]]].
  - case_bool_decide; split; (done || by intros [= ?]).
  - intros Ho. unfold auth_events. rewrite Ho. by destruct p.
  - unfold auth_events, api_calls. destruct (spotify_oauth p); [|cbn; lia].
    destruct (cached_token _); cbn; lia.
  - apply creation_calls_auth_events.
Qed.

Lemma auth_client_outcome_witness :
  spotify_oauth Sample.offline = false
  ∧ (get_authenticated_spotify_client Sample.offline).2 = Sample.offline.
Proof.
  split; [done|].
  destruct (auth_client_outcome Sample.offline) as (_ & _ & _ & H & _).
  by apply H.
Defined.

(** X11: the health check always answers; it reports the three components
    as they are loaded, and playlist creation as available exactly in
    authenticated mode; it is not free of effects outside the process: with
    OAuth configured it calls Spotify each time, but it leaves the globals
    and the cache as they are. *)
Theorem health_check_reports p :
  ∃ resp,
    health_check p = (Ok resp, with_trace (auth_events p ++ trace p) p)
    ∧ health_status resp = "healthy"
    ∧ mood_model_loaded resp = mood_model p
    ∧ face_cascade_loaded resp = face_cascade p
    ∧ spotify_search_available resp = spotify_client p
    ∧ (spotify_playlist_creation resp = true ↔ authenticated p)
    ∧ (spotify_oauth p = true → is_Some (cached_token (spotify p)) →
       api_calls (auth_events p ++ trace p)
       = ApiCurrentUser :: ApiGetCachedToken :: api_calls (trace p)).
Proof.
  unfold health_check. unfold bind at 1, gets at 1.
  unfold bind at 1, gets at 1. unfold bind at 1, gets at 1.
  unfold bind at 1. rewrite auth_client_spec. cbn.
  eexists. split; [done|]. cbn. do 4 (split; [done|]). split.
  - by case_bool_decide.
  - intros Ho [tok Htok]. unfold auth_events. by rewrite Ho, Htok.
Qed.

Lemma health_check_reports_witness :
  spotify_oauth Sample.process = true
  ∧ is_Some (cached_token (spotify Sample.process))
  ∧ api_calls (trace (health_check Sample.process).2)
    = [ApiCurrentUser; ApiGetCachedToken].
Proof.
  split; [done|]. split; [by eexists|].
  destruct (health_check_reports Sample.process) as (resp & -> & H).
  destruct H as (_ & _ & _ & _ & _ & H).
  apply H; [done|by eexists].
Defined.

(** ** Detection endpoints *)

Lemma base64_to_image_spec s p :
  base64_to_image s p =
  (match open_image p (data_url_payload s) with
   | Some image_array => Ok image_array
   | None => Raise (HTTPException 400 "Invalid image data")
   end, p).
Proof.
  unfold base64_to_image, data_url_payload. unfold_monad. cbn.
  by destruct (open_image p _).
Qed.

Lemma detect_mood_from_image_spec image_array p :
  detect_mood_from_image image_array p = (Ok (detection image_array p), p).
Proof.
  unfold detect_mood_from_image, detection, classified. unfold_monad. cbn.
  destruct (mood_model p); cbn; [|done].
  destruct (face_cascade p); cbn; [|done].
  destruct (detected_faces image_array); cbn; [done|].
  by destruct (prediction _ _) as [[? ?]|].
Qed.

Lemma detect_mood_spec image_base64 p :
  detect_mood image_base64 p =
  (if mood_model p && face_cascade p then
     match open_image p (data_url_payload image_base64) with
     | None => Raise (HTTPException 400 "Invalid image data")
     | Some image_array =>
         match (detection image_array p).1 with
         | None => Raise (HTTPException 400 "No face detected in image")
         | Some mood =>
             Ok {| det_mood := mood;
                   det_confidence := (detection image_array p).2;
                   det_playlist_url := None; det_recommendations := [] |}
         end
     end
   else Raise (HTTPException 503 "Mood detection models not loaded"), p).
Proof.
  unfold detect_mood, endpoint, try_except.
  unfold bind at 1, gets at 1. unfold bind at 1, gets at 1.
  destruct (mood_model p), (face_cascade p); cbn [negb orb andb]; try done.
  unfold bind at 1. rewrite base64_to_image_spec.
  destruct (open_image p _) as [image_array|]; [|done].
  unfold bind at 1. rewrite detect_mood_from_image_spec. cbn.
  by destruct (detection image_array p) as [[mood|] conf].
Qed.

(** X12: [POST /detect-mood] leaves the process untouched and answers 503
    exactly when the model or the cascade is not loaded; 400 exactly when
    they are loaded and the payload does not decode or no mood is
    detected; and otherwise 200 with the detected mood and confidence, no
    playlist URL and no recommendations.  It never answers 500. *)
Theorem detect_mood_status image_base64 p :
  let r := detect_mood image_base64 p in
  let loaded := mood_model p && face_cascade p in
  let decoded := open_image p (data_url_payload image_base64) in
  r.2 = p
  ∧ (status_code_of r.1 = 503 ↔ loaded = false)
  ∧ (status_code_of r.1 = 400 ↔
       loaded = true
       ∧ ∀ image_array mood, decoded = Some image_array →
           (detection image_array p).1 ≠ Some mood)
  ∧ (∀ image_array mood, loaded = true → decoded = Some image_array →
       (detection image_array p).1 = Some mood →
       r.1 = Ok {| det_mood := mood;
                   det_confidence := (detection image_array p).2;
                   det_playlist_url := None; det_recommendations := [] |})
  ∧ status_code_of r.1 ≠ 500.
Proof.
  cbv zeta. rewrite detect_mood_spec. cbn [fst snd].
  destruct (mood_model p && face_cascade p).
  2:{ cbn. split_and!; try done. split; [done|by intros [? _]]. }
  destruct (open_image p _) as [image_array|].
  2:{ cbn. split_and!; try done. }
  destruct (detection image_array p) as [[mood|] conf] eqn:Hd; cbn.
  - split_and!; try done.
    + split; [done|]. intros [_ H]. specialize (H image_array mood eq_refl).
      by rewrite Hd in H.
    + intros ? ? _ [= <-]. rewrite Hd. by intros [= <-].
  - split_and!; try done.
    + split; [|done]. intros _. split; [done|].
      intros ? ? [= <-]. by rewrite Hd.
    + intros ? ? _ [= <-]. by rewrite Hd.
Qed.

Lemma detect_mood_status_witness :
  status_code_of (detect_mood "data:image/png;base64,AAAA" Sample2.process).1 = 200
  ∧ status_code_of (detect_mood "data:image/png;base64,BBBB" Sample2.process).1 = 400.
Proof.
  destruct (detect_mood_status "data:image/png;base64,AAAA" Sample2.process)
    as (_ & _ & _ & H200 & _).
  destruct (detect_mood_status "data:image/png;base64,BBBB" Sample2.process)
    as (_ & _ & H400 & _).
  split.
  - by rewrite (H200 Sample.image "Happy").
  - apply H400. split; [done|]. intros ? ? Hd. by vm_compute in Hd.
Defined.

Lemma detect_mood_and_get_playlist_spec image_base64 limit p :
  detect_mood_and_get_playlist image_base64 limit p =
  if mood_model p && face_cascade p then
    if spotify_client p then
      match open_image p (data_url_payload image_base64) with
      | None => (Raise (HTTPException 400 "Invalid image data"), p)
      | Some image_array =>
          match (detection image_array p).1 with
          | None => (Raise (HTTPException 400 "No face detected in image"), p)
          | Some mood =>
              match search_outcome mood limit p with
              | [] =>
                  (Ok {| det_mood := mood;
                         det_confidence := (detection image_array p).2;
                         det_playlist_url := None;
                         det_recommendations := [] |},
                   search_state mood limit p)
              | t :: ts =>
                  let r := create_actual_spotify_playlist (t :: ts) mood
                             (search_state mood limit p) in
                  (Ok {| det_mood := mood;
                         det_confidence := (detection image_array p).2;
                         det_playlist_url :=
                           match r.1 with Ok o => o | Raise _ => None end;
                         det_recommendations := t :: ts |}, r.2)
              end
          end
      end
    else (Raise (HTTPException 503 "Spotify client not initialized"), p)
  else (Raise (HTTPException 503 "Mood detection models not loaded"), p).
Proof.
  unfold detect_mood_and_get_playlist, endpoint, try_except.
  unfold bind at 1, gets at 1. unfold bind at 1, gets at 1.
  destruct (mood_model p), (face_cascade p); cbn [negb orb andb]; try done.
  unfold bind at 1, gets at 1.
  destruct (spotify_client p); cbn [negb]; [|done].
  unfold bind at 1. rewrite base64_to_image_spec.
  destruct (open_image p _) as [image_array|]; [|done].
  unfold bind at 1. rewrite detect_mood_from_image_spec. cbn [fst snd].
  destruct (detection image_array p) as [[mood|] conf]; cbn [fst snd]; [|done].
  unfold bind at 1. rewrite search_spec.
  destruct (search_outcome mood limit p) as [|t ts]; [done|].
  unfold bind at 1.
  destruct (create_actual_effect (t :: ts) mood (search_state mood limit p))
    as [[o Ho] _].
  destruct (create_actual_spotify_playlist _ _ _) as [r p2].
  cbn in Ho. subst r. done.
Qed.

(** X13: [POST /mood-and-playlist] answers 200, 400 or 503, never 404 and
    never 500.  Once the models are loaded, the catalog client is set and a
    mood is detected, it answers 200 with that mood whatever Spotify does;
    when the search finds nothing, the recommendations are empty, there is
    no playlist URL and the cache is not even looked up, where the playlist
    endpoint answers 404 for the same mood. *)
Theorem mood_and_playlist_degrades image_base64 limit p :
  let r := detect_mood_and_get_playlist image_base64 limit p in
  (status_code_of r.1 = 200 ∨ status_code_of r.1 = 400
   ∨ status_code_of r.1 = 503)
  ∧ (∀ image_array mood,
       mood_model p && face_cascade p = true → spotify_client p = true →
       open_image p (data_url_payload image_base64) = Some image_array →
       (detection image_array p).1 = Some mood →
       ∃ resp, r.1 = Ok resp ∧ det_mood resp = mood
         ∧ det_confidence resp = (detection image_array p).2
         ∧ det_recommendations resp = search_outcome mood limit p
         ∧ (search_outcome mood limit p = [] →
            det_playlist_url resp = None
            ∧ r.2 = search_state mood limit p
            ∧ (mood ∈ mood_values →
               status_code_of (get_playlist_by_mood mood limit p).1 = 404))).
Proof.
  cbv zeta. rewrite detect_mood_and_get_playlist_spec. split.
  - destruct (mood_model p && face_cascade p); [|cbn; auto].
    destruct (spotify_client p); [|cbn; auto].
    destruct (open_image p _) as [image_array|]; [|cbn; auto].
    destruct (detection image_array p).1; [|cbn; auto].
    destruct (search_outcome _ _ _); cbn; auto.
  - intros image_array mood -> Hclient -> ->. rewrite Hclient.
    destruct (search_outcome mood limit p) as [|t ts] eqn:Hs.
    + eexists. split; [done|]. cbn. split_and!; try done.
      intros _. split_and!; try done. intros Hin.
      rewrite get_playlist_by_mood_spec, Hclient, Hs.
      by rewrite bool_decide_eq_true_2.
    + eexists. split; [done|]. cbn. split_and!; done.
Qed.

Lemma mood_and_playlist_degrades_witness :
  let r := detect_mood_and_get_playlist "AAAA" 20 Sample2.process in
  status_code_of r.1 = 200
  ∧ ∃ resp, r.1 = Ok resp ∧ det_mood resp = "Happy"
      ∧ det_recommendations resp = [].
Proof.
  intros r. subst r.
  destruct (mood_and_playlist_degrades "AAAA" 20 Sample2.process) as [_ H].
  destruct (H Sample.image "Happy" eq_refl eq_refl eq_refl eq_refl)
    as (resp & Hr & Hmood & _ & Hrecs & _).
  rewrite Hr. split; [done|]. exists resp. split; [done|]. split; [done|].
  rewrite Hrecs. by vm_compute.
Defined.

Lemma upload_image_mood_detection_spec pil_open contents filename p :
  upload_image_mood_detection pil_open contents filename p =
  (if mood_model p && face_cascade p then
     match pil_open contents with
     | None => Raise (HTTPException 500 "Internal server error")
     | Some image_array =>
         match (detection image_array p).1 with
         | None => Raise (HTTPException 400 "No face detected in image")
         | Some mood =>
             Ok {| upload_mood := mood;
                   upload_confidence := (detection image_array p).2;
                   upload_filename := filename |}
         end
     end
   else Raise (HTTPException 503 "Mood detection models not loaded"), p).
Proof.
  unfold upload_image_mood_detection, endpoint, try_except.
  unfold bind at 1, gets at 1. unfold bind at 1, gets at 1.
  destruct (mood_model p), (face_cascade p); cbn [negb orb andb]; try done.
  destruct (pil_open contents) as [image_array|]; [|done].
  unfold bind at 1. rewrite detect_mood_from_image_spec. cbn [fst snd].
  by destruct (detection image_array p) as [[mood|] conf].
Qed.

(** X14: [POST /upload-image] leaves the process untouched; with the
    models loaded, a file that does not open as an image is answered with
    500, whereas the same failure on the base64 endpoint is a 400; a file
    in which no mood is detected is a 400; and without the models the
    answer is 503. *)
Theorem upload_undecodable_file_is_500 pil_open contents filename p :
  let r := upload_image_mood_detection pil_open contents filename p in
  r.2 = p
  ∧ (status_code_of r.1 = 503 ↔ mood_model p && face_cascade p = false)
  ∧ (status_code_of r.1 = 500 ↔
       mood_model p && face_cascade p = true ∧ pil_open contents = None)
  ∧ (mood_model p && face_cascade p = true →
     ∀ image_base64, open_image p (data_url_payload image_base64) = None →
       status_code_of (detect_mood image_base64 p).1 = 400)
  ∧ (∀ image_array, mood_model p && face_cascade p = true →
       pil_open contents = Some image_array →
       r.1 = match (detection image_array p).1 with
             | None => Raise (HTTPException 400 "No face detected in image")
             | Some mood =>
                 Ok {| upload_mood := mood;
                       upload_confidence := (detection image_array p).2;
                       upload_filename := filename |}
             end).
Proof.
  cbv zeta. rewrite upload_image_mood_detection_spec. cbn [fst snd].
  split; [done|].
  destruct (mood_model p && face_cascade p) eqn:Hloaded.
  2:{ cbn. split_and!; try done. split; [done|by intros [? _]]. }
  split_and!.
  - destruct (pil_open contents) as [image_array|]; [|done].
    by destruct (detection image_array p).1.
  - destruct (pil_open contents) as [image_array|]; [|done].
    destruct (detection image_array p).1; cbn; split; (done || by intros [_ ?]).
  - intros _ image_base64 Hnone.
    rewrite detect_mood_spec, Hloaded, Hnone. done.
  - by intros image_array _ ->.
Qed.

Lemma upload_undecodable_file_is_500_witness :
  status_code_of
    (upload_image_mood_detection (λ _, None) "not an image" (Some "a.txt")
       Sample.process).1 = 500
  ∧ status_code_of (detect_mood "not an image" Sample.process).1 = 400.
Proof.
  destruct (upload_undecodable_file_is_500 (λ _, None) "not an image"
              (Some "a.txt") Sample.process) as (_ & _ & H500 & H400 & _).
  split; [by apply H500|]. by apply H400.
Defined.

(** ** Data URLs *)

Lemma contains_comma_cons c r :
  PyStr.contains "," (String c r) = Ascii.eqb c "," || PyStr.contains "," r.
Proof.
  cbn -[ascii_dec]. destruct (ascii_dec "," c) as [<-|Hne].
  - by destruct r.
  - destruct (Ascii.eqb_spec c ","); [by subst|]. done.
Qed.

Lemma until_comma_comma_free s : comma_free s → until_comma s = s.
Proof.
  unfold comma_free. induction s as [|c r IH]; [done|].
  rewrite contains_comma_cons. intros [Hc Hr]%orb_false_elim.
  cbn -[Ascii.eqb]. rewrite Hc. by rewrite IH.
Qed.

Lemma after_comma_app prefix rest :
  comma_free prefix → after_comma (prefix +:+ "," +:+ rest) = rest.
Proof.
  unfold comma_free. induction prefix as [|c r IH]; [done|].
  rewrite contains_comma_cons. intros [Hc Hr]%orb_false_elim.
  change (String c r +:+ "," +:+ rest) with (String c (r +:+ "," +:+ rest)).
  cbn -[Ascii.eqb]. rewrite Hc. by apply IH.
Qed.

Lemma until_comma_app payload rest :
  comma_free payload → until_comma (payload +:+ "," +:+ rest) = payload.
Proof.
  unfold comma_free. induction payload as [|c r IH]; [done|].
  rewrite contains_comma_cons. intros [Hc Hr]%orb_false_elim.
  change (String c r +:+ "," +:+ rest) with (String c (r +:+ "," +:+ rest)).
  cbn -[Ascii.eqb]. rewrite Hc. by rewrite IH.
Qed.

Lemma contains_comma_app prefix rest :
  PyStr.contains "," (prefix +:+ "," +:+ rest) = true.
Proof.
  induction prefix as [|c r IH].
  { change ("" +:+ "," +:+ rest) with (String "," rest).
    by rewrite contains_comma_cons. }
  change (String c r +:+ "," +:+ rest) with (String c (r +:+ "," +:+ rest)).
  rewrite contains_comma_cons, IH. apply orb_true_r.
Qed.

(** X15: the image decoder ignores a data-URL prefix: for a prefix and a
    payload without commas, ["<prefix>,<payload>"] decodes exactly as the
    bare payload does, a further [",<rest>"] is dropped, and whatever fails
    surfaces as a 400 that leaves the process untouched. *)
Theorem data_url_prefix_is_stripped prefix payload rest p :
  comma_free prefix → comma_free payload →
  base64_to_image (prefix +:+ "," +:+ payload) p = base64_to_image payload p
  ∧ base64_to_image (prefix +:+ "," +:+ payload +:+ "," +:+ rest) p
    = base64_to_image payload p
  ∧ (base64_to_image payload p).2 = p
  ∧ (open_image p payload = None →
     (base64_to_image payload p).1
     = Raise (HTTPException 400 "Invalid image data")).
Proof.
  intros Hprefix Hpayload.
  assert (data_url_payload payload = payload) as H0.
  { unfold data_url_payload. by rewrite Hpayload. }
  assert (data_url_payload (prefix +:+ "," +:+ payload) = payload) as H1.
  { unfold data_url_payload.
    by rewrite contains_comma_app, after_comma_app, until_comma_comma_free. }
  assert (data_url_payload (prefix +:+ "," +:+ payload +:+ "," +:+ rest)
          = payload) as H2.
  { unfold data_url_payload.
    by rewrite contains_comma_app, after_comma_app, until_comma_app. }
  rewrite !base64_to_image_spec, H0, H1, H2. split_and!; try done.
  by intros ->.
Qed.

Lemma data_url_prefix_is_stripped_witness :
  comma_free "data:image/png;base64" ∧ comma_free "AAAA"
  ∧ (base64_to_image "data:image/png;base64,AAAA" Sample2.process).1
    = Ok Sample.image.
Proof.
  split; [done|]. split; [done|].
  destruct (data_url_prefix_is_stripped "data:image/png;base64" "AAAA" ""
              Sample2.process) as [H _]; [done..|].
  change "data:image/png;base64,AAAA"
    with ("data:image/png;base64" +:+ "," +:+ "AAAA").
  by rewrite H.
Defined.

(** ** The stream *)

(** X16: on the stream nothing checks that the model is loaded: a frame
    whose image decodes is answered, when the model or the cascade is
    missing, with mood [null] and confidence 0.0, the reply of an image
    without a face, where the request endpoints answer 503. *)
Theorem stream_reports_missing_model_as_no_face members image image_array p :
  obj_get "image" members = Some (JStr image) →
  open_image p (data_url_payload image) = Some image_array →
  mood_model p && face_cascade p = false →
  handle_frame (JObj members) p
  = (Ok (MoodReply None 0%Q (obj_get "timestamp" members) None), p)
  ∧ status_code_of (detect_mood image p).1 = 503.
Proof.
  intros Himage Hopen Hloaded. split.
  - unfold handle_frame, process_frame. cbn [image_not_in].
    rewrite Himage. cbn [negb bool_decide].
    rewrite bool_decide_eq_true_2 by eauto. cbn [negb].
    unfold try_except, bind at 1. rewrite base64_to_image_spec, Hopen.
    unfold bind at 1. rewrite detect_mood_from_image_spec.
    unfold detection. rewrite Hloaded. done.
  - by rewrite detect_mood_spec, Hloaded.
Qed.

Lemma stream_reports_missing_model_as_no_face_witness :
  let p := with_spotify_client true
             {| mood_model := false; face_cascade := true;
                spotify_client := true; spotify_oauth := false;
                created_playlists := ∅; spotify_market := None;
                open_image := open_image Sample2.process;
                spotify := Sample.service; trace := [] |} in
  (handle_frame (JObj [("image", JStr "AAAA")]) p).1
  = Ok (MoodReply None 0%Q None None).
Proof.
  intros p.
  destruct (stream_reports_missing_model_as_no_face [("image", JStr "AAAA")]
              "AAAA" Sample.image p eq_refl eq_refl eq_refl) as [H _].
  by rewrite H.
Defined.

Lemma handle_frame_container data p :
  image_not_in data ≠ None →
  ∃ reply, (handle_frame data p).1 = Ok reply ∧ reply_well_formed reply.
Proof.
  intros Hc. unfold handle_frame.
  destruct (image_not_in data) as [[|]|]; [| |done].
  { eexists. split; [done|]. by left. }
  unfold try_except.
  destruct (process_frame data p) as [[reply|e] p'] eqn:Hp; cbn.
  2:{ eexists. split; [done|]. by right. }
  exists reply. split; [done|].
  unfold process_frame in Hp.
  destruct data as [| | | | |members]; try done.
  destruct (obj_get "image" members) as [[| | |image| |]|]; try done.
  unfold bind at 1 in Hp. rewrite base64_to_image_spec in Hp.
  destruct (open_image p _) as [image_array|]; [|done].
  unfold bind at 1 in Hp. rewrite detect_mood_from_image_spec in Hp.
  cbn [fst snd] in Hp.
  destruct (detection image_array p) as [[mood|] conf]; cbn [fst snd] in Hp.
  2:{ by injection Hp as <- _. }
  destruct (PyStr.nonempty mood && _).
  - unfold bind at 1 in Hp. rewrite search_spec in Hp.
    injection Hp as <- _. cbn. split; [by eexists|].
    rewrite length_take. lia.
  - by injection Hp as <- _.
Qed.

Lemma websocket_video_mood_containers inbound : ∀ p,
  Forall is_container inbound →
  let '(replies, closed, p') := websocket_video_mood inbound p in
  closed = ClientDisconnected
  ∧ length replies = length inbound
  ∧ Forall reply_well_formed replies
  ∧ created_playlists p' = created_playlists p.
Proof.
  induction inbound as [|frame rest IH]; intros p Hall.
  { cbn. by split_and!. }
  apply Forall_cons in Hall as [(data & -> & Hc) Hrest].
  cbn [websocket_video_mood].
  destruct (handle_frame_container data p Hc) as (reply & Hreply & Hwf).
  pose proof (keeps_cache_handle_frame data p) as Hcache.
  destruct (handle_frame data p) as [r p1]. cbn in Hreply, Hcache. subst r.
  specialize (IH p1 Hrest).
  destruct (websocket_video_mood rest p1) as [[replies closed] p2].
  destruct IH as (-> & Hlen & Hwfs & Hc2). cbn.
  split_and!; [done|by rewrite Hlen|by constructor|congruence].
Qed.

(** X17: as long as every frame is a JSON object, array or string, the
    handler answers each frame with exactly one reply, ends only when the
    client disconnects, and never changes the playlist cache; every error
    reply carries one of the handler's two messages, and recommendations
    come only with a detected mood and are at most five. *)
Theorem stream_replies_once_per_frame inbound p :
  Forall is_container inbound →
  let '(replies, closed, p') := websocket_video_mood inbound p in
  closed = ClientDisconnected
  ∧ length replies = length inbound
  ∧ Forall reply_well_formed replies
  ∧ created_playlists p' = created_playlists p.
Proof. apply websocket_video_mood_containers. Qed.

Lemma stream_replies_once_per_frame_witness :
  let inbound := [Some (JObj [("image", JStr "AAAA"); ("include_playlist", JBool true)]);
                  Some (JArr []); Some (JStr "image"); Some Sample.frame_without_image] in
  Forall is_container inbound
  ∧ (websocket_video_mood inbound Sample.process).1.2 = ClientDisconnected
  ∧ length (websocket_video_mood inbound Sample.process).1.1 = 4%nat.
Proof.
  intros inbound.
  assert (Forall is_container inbound) as Hall.
  { repeat constructor; by eexists. }
  split; [done|].
  pose proof (stream_replies_once_per_frame inbound Sample.process Hall) as H.
  destruct (websocket_video_mood inbound Sample.process) as [[replies closed] p'].
  cbn. destruct H as (-> & Hlen & _). by rewrite Hlen.
Defined.

Lemma list_remove_fresh x l : x ∉ l → list_remove x (l ++ [x]) = Some l.
Proof.
  induction l as [|y l IH]; intros Hx; cbn.
  - by rewrite decide_True.
  - apply not_elem_of_cons in Hx as [Hne Hx].
    rewrite decide_False by done. by rewrite IH.
Qed.

(** X18: the registry of open sockets.  For a socket that is not yet
    registered, a session whose frames are all JSON objects, arrays or
    strings ends with the registry as it was before; but a frame that is a
    bare number, boolean or null makes the membership test raise: the
    handler fails, the frames after it get no reply, and the socket stays
    in the registry. *)
Theorem session_registry websocket active before data after p :
  websocket ∉ active →
  Forall is_container before →
  (Forall is_container after →
   let '(replies, closed, remaining, _) :=
     websocket_session websocket (before ++ after) active p in
   closed = ClientDisconnected ∧ remaining = active
   ∧ length replies = length (before ++ after))
  ∧ (image_not_in data = None →
     let '(replies, closed, remaining, _) :=
       websocket_session websocket (before ++ Some data :: after) active p in
     closed = HandlerFailed (PyError "TypeError")
     ∧ remaining = active ++ [websocket]
     ∧ length replies = length before).
Proof.
  intros Hfresh Hbefore. split.
  - intros Hafter. unfold websocket_session.
    pose proof (websocket_video_mood_containers (before ++ after) p) as H.
    destruct (websocket_video_mood (before ++ after) p) as [[replies closed] p'].
    destruct H as (-> & Hlen & _); [by apply Forall_app|].
    unfold connect, disconnect. by rewrite list_remove_fresh.
  - intros Hdata. unfold websocket_session.
    rewrite websocket_video_mood_app.
    pose proof (websocket_video_mood_containers before p Hbefore) as H.
    destruct (websocket_video_mood before p) as [[replies closed] p'].
    destruct H as (-> & Hlen & _).
    cbn [websocket_video_mood]. unfold handle_frame. rewrite Hdata. cbn.
    by rewrite app_nil_r.
Qed.

Lemma session_registry_witness :
  (7%nat ∉ [3%nat; 5%nat])
  ∧ (websocket_session 7 [Some Sample.frame_without_image] [3%nat; 5%nat]
       Sample.process).1.2 = [3%nat; 5%nat]
  ∧ (websocket_session 7 [Some Sample.frame_without_image; Some JNull;
                          Some Sample.frame_without_image] [3%nat; 5%nat]
       Sample.process).1.2 = [3%nat; 5%nat; 7%nat].
Proof.
  assert (7%nat ∉ [3%nat; 5%nat]) as Hfresh by (by apply (bool_decide_eq_false_1 _)).
  assert (Forall is_container [Some Sample.frame_without_image]) as Hc.
  { repeat constructor. by eexists. }
  split; [done|].
  destruct (session_registry 7 [3%nat; 5%nat] [Some Sample.frame_without_image]
              JNull [] Sample.process Hfresh Hc) as [H1 _].
  destruct (session_registry 7 [3%nat; 5%nat] [Some Sample.frame_without_image]
              JNull [Some Sample.frame_without_image] Sample.process Hfresh Hc)
    as [_ H2].
  specialize (H1 (Forall_nil_2 _)). specialize (H2 eq_refl).
  cbn [app] in H1, H2.
  destruct (websocket_session 7 [_] _ _) as [[[? ?] ?] ?].
  destruct (websocket_session 7 [_; _; _] _ _) as [[[? ?] ?] ?].
  cbn. by destruct H1 as (_ & -> & _), H2 as (_ & -> & _).
Defined.

(** ** Cleanup: the listing loop and the early exits *)

Lemma listing_calls_cons e tr :
  listing_calls (e :: tr) =
  if is_listing_call e then S (listing_calls tr) else listing_calls tr.
Proof.
  unfold listing_calls. rewrite filter_cons.
  destruct (is_listing_call e); by case_decide.
Qed.

Lemma fetch_playlists_calls offset acc p :
  (∀ o, listing_ok (spotify p) o = true) →
  listing_calls (trace (fetch_playlists offset acc p).2)
  = (listing_calls (trace p)
     + length (drop offset (playlists (spotify p))) / 50 + 1)%nat.
Proof.
  funelim (fetch_playlists offset acc p); intros Hok; page_call;
    rewrite Hok in *; try done.
  - match goal with H : Ok _ = Ok _ |- _ => injection H as <- end.
    match goal with H : (_ <? _)%nat = true |- _ => apply Nat.ltb_lt in H;
      rewrite length_take in H end.
    cbn -[Nat.div]. rewrite listing_calls_cons. cbn -[Nat.div].
    rewrite Nat.div_small by lia. lia.
  - match goal with H : Ok _ = Ok _ |- _ => injection H as <- end.
    match goal with
    | IH : (∀ o, _) → _ |- _ => rewrite (IH Hok)
    end.
    match goal with H : (_ <? _)%nat = false |- _ => apply Nat.ltb_ge in H;
      rewrite length_take in H end.
    cbn -[Nat.div]. rewrite listing_calls_cons. cbn -[Nat.div].
    rewrite !length_drop in *.
    replace (length (playlists (spotify p)) - offset)%nat
      with (length (playlists (spotify p)) - (offset + 50) + 1 * 50)%nat by lia.
    rewrite Nat.div_add by lia. lia.
Qed.

(** X19: when every page can be listed, the listing loop of the cleanup
    returns the whole account, in order, whatever its size, and asks for
    [n / 50 + 1] pages of 50 for an account of [n] playlists: one more,
    empty, page when [n] is a multiple of 50. *)
Theorem listing_fetches_whole_account p :
  (∀ o, listing_ok (spotify p) o = true) →
  let r := fetch_playlists 0 [] p in
  r.1 = Ok (playlists (spotify p))
  ∧ r.2 = with_trace (trace r.2) p
  ∧ listing_calls (trace r.2)
    = (listing_calls (trace p) + length (playlists (spotify p)) / 50 + 1)%nat.
Proof.
  intros Hok. cbv zeta.
  destruct (fetch_playlists_spec 0 [] p Hok) as (H1 & H2 & _).
  split; [by rewrite H1, drop_0|]. split; [done|].
  by rewrite fetch_playlists_calls, drop_0.
Qed.

Lemma listing_fetches_whole_account_witness :
  (∀ o, listing_ok (spotify Sample.process) o = true)
  ∧ (fetch_playlists 0 [] Sample.process).1 = Ok Sample.account
  ∧ listing_calls (trace (fetch_playlists 0 [] Sample.process).2) = 1%nat.
Proof.
  assert (∀ o, listing_ok (spotify Sample.process) o = true) as Hok by done.
  split; [done|].
  destruct (listing_fetches_whole_account Sample.process Hok) as (H1 & _ & H2).
  by rewrite H1, H2.
Defined.

Lemma fetch_playlists_first_page_fails acc p :
  listing_ok (spotify p) 0 = false →
  fetch_playlists 0 acc p
  = (Raise (PyError "SpotifyException"),
     with_trace (Api (ApiCurrentUserPlaylists 50 0) :: trace p) p).
Proof.
  intros Hfail. funelim (fetch_playlists 0 acc p); page_call;
    rewrite Hfail in *; try done.
  by match goal with H : Raise _ = Raise _ |- _ => injection H as <- end.
Qed.

(** The cleanup once the identity check has passed. *)
Lemma cleanup_authenticated p :
  authenticated p →
  let q := with_trace (Api ApiCurrentUser :: auth_events p ++ trace p) p in
  cleanup_kaguya_playlists p =
  match fetch_playlists 0 [] q with
  | (Raise e, q') =>
      (Raise match e with
             | HTTPException _ _ => e
             | PyError _ => HTTPException 500 "Internal server error"
             end, q')
  | (Ok all_playlists, q') =>
      match filter (λ pl, is_kaguya pl = true) all_playlists with
      | [] =>
          (Ok {| cleanup_message := "No kaguya playlists found to delete";
                 deleted_count := 0; deleted_playlists := [] |}, q')
      | m :: ms =>
          let r := delete_each (user_id (spotify p)) (m :: ms) [] q' in
          let deleted := match r.1 with Ok d => d | Raise _ => [] end in
          (Ok {| cleanup_message :=
                   "Successfully deleted " +:+ pretty (length deleted)
                   +:+ " kaguya playlists";
                 deleted_count := length deleted;
                 deleted_playlists := deleted |},
           with_created_playlists ∅ (with_trace (CacheClear :: trace r.2) r.2))
      end
  end.
Proof.
  intros Hauth. cbv zeta.
  unfold cleanup_kaguya_playlists, endpoint, try_except.
  unfold bind at 1. rewrite auth_client_spec.
  rewrite bool_decide_eq_true_2 by done. cbn [negb].
  unfold bind at 1, api_current_user.
  unfold bind at 1, emit, modify.
  unfold bind at 1, gets. cbn [spotify with_trace].
  destruct Hauth as (_ & _ & Hacc). rewrite Hacc.
  unfold ret at 1, bind at 1. cbn [trace with_trace].
  destruct (fetch_playlists 0 [] _) as [[all_playlists|e] q'].
  2:{ by destruct e. }
  destruct (filter _ all_playlists) as [|m ms]; [done|].
  unfold bind at 1.
  destruct (delete_each_spec (user_id (spotify p)) (m :: ms) [] q') as [D _].
  destruct (delete_each _ _ _ _) as [r q'']. cbn in D. subst r. done.
Qed.

Lemma cleanup_unauthenticated p :
  ¬ authenticated p →
  cleanup_kaguya_playlists p
  = (Raise (HTTPException 503 "No authenticated Spotify client available"),
     with_trace (auth_events p ++ trace p) p).
Proof.
  intros Hna. unfold cleanup_kaguya_playlists, endpoint, try_except.
  unfold bind at 1. rewrite auth_client_spec.
  by rewrite bool_decide_eq_false_2.
Qed.

(** X20: the early exits of the cleanup leave the cache as it is.  Without
    an authenticated client the answer is 503; with one, a first page of
    playlists that cannot be listed gives 500, and an account of playlists
    with ASCII names none of which matches gives 200 with a count of 0: in
    all three cases no deletion is attempted and [created_playlists] is not
    cleared.  The names are ASCII so that [is_kaguya] is the test of the
    code. *)
Theorem cleanup_early_exits_keep_cache p :
  let r := cleanup_kaguya_playlists p in
  (¬ authenticated p →
   status_code_of r.1 = 503
   ∧ r.2 = with_trace (auth_events p ++ trace p) p)
  ∧ (authenticated p → listing_ok (spotify p) 0 = false →
     status_code_of r.1 = 500
     ∧ created_playlists r.2 = created_playlists p
     ∧ unfollow_calls (trace r.2) = unfollow_calls (trace p))
  ∧ (authenticated p → (∀ o, listing_ok (spotify p) o = true) →
     ascii_names (playlists (spotify p)) →
     filter (λ pl, is_kaguya pl = true) (playlists (spotify p)) = [] →
     (∃ resp, r.1 = Ok resp ∧ deleted_count resp = 0%nat
        ∧ deleted_playlists resp = []
        ∧ cleanup_message resp = "No kaguya playlists found to delete")
     ∧ created_playlists r.2 = created_playlists p
     ∧ unfollow_calls (trace r.2) = unfollow_calls (trace p)
     ∧ playlists (spotify r.2) = playlists (spotify p)).
Proof.
  cbv zeta. split_and!.
  - intros Hna. by rewrite cleanup_unauthenticated.
  - intros Ha Hfail. rewrite cleanup_authenticated by done. cbv zeta.
    rewrite fetch_playlists_first_page_fails by done. cbn.
    split_and!; try done.
    by rewrite !unfollow_calls_cons, unfollow_calls_auth_events, !app_nil_r.
  - intros Ha Hok _ Hnone. rewrite cleanup_authenticated by done. cbv zeta.
    set (q := with_trace _ p).
    destruct (fetch_playlists_spec 0 [] q Hok) as (F1 & F2 & F3).
    destruct (fetch_playlists 0 [] q) as [fetched q'].
    cbn in F1, F2, F3. subst fetched. rewrite drop_0, Hnone. cbn.
    split; [by eexists|]. rewrite F2. cbn. split_and!; try done.
    rewrite F3. subst q. cbn.
    by rewrite !unfollow_calls_cons, unfollow_calls_auth_events, !app_nil_r.
Qed.

Lemma cleanup_early_exits_keep_cache_witness :
  let cached := with_created_playlists (<["Happy" := "url"]> ∅) in
  ¬ authenticated (cached Sample.anonymous)
  ∧ ascii_names (playlists (spotify (cached Sample2.unbranded)))
  ∧ status_code_of (cleanup_kaguya_playlists (cached Sample.anonymous)).1 = 503
  ∧ status_code_of (cleanup_kaguya_playlists (cached Sample2.process)).1 = 500
  ∧ created_playlists (cleanup_kaguya_playlists (cached Sample2.process)).2
    = <["Happy" := "url"]> ∅
  ∧ created_playlists (cleanup_kaguya_playlists (cached Sample2.unbranded)).2
    = <["Happy" := "url"]> ∅.
Proof.
  intros cached.
  assert (¬ authenticated (cached Sample.anonymous)) as Hna
    by (by intros (_ & _ & ?)).
  assert (authenticated (cached Sample2.process)) as Ha.
  { split; [done|]. split; [by eexists|done]. }
  assert (authenticated (cached Sample2.unbranded)) as Hu.
  { split; [done|]. split; [by eexists|done]. }
  assert (ascii_names (playlists (spotify (cached Sample2.unbranded))))
    as Hascii by (by repeat constructor).
  split; [done|]. split; [done|].
  destruct (cleanup_early_exits_keep_cache (cached Sample.anonymous))
    as ([H503 _] & _); [done|].
  destruct (cleanup_early_exits_keep_cache (cached Sample2.process))
    as (_ & [H500 [Hc _]] & _); [done..|].
  destruct (cleanup_early_exits_keep_cache (cached Sample2.unbranded))
    as (_ & _ & H200); destruct (H200 Hu (λ _, eq_refl) Hascii eq_refl)
    as (_ & Hkept & _).
  by rewrite H503, H500, Hc, Hkept.
Defined.

(** ** The fallback URL is always built *)

Lemma chars_app a b : chars (a +:+ b) = chars a ++ chars b.
Proof.
  induction a as [|c a IH]; [done|].
  change (String c a +:+ b) with (String c (a +:+ b)). cbn. by rewrite IH.
Qed.

Lemma url_charb_spec c : url_charb c = true → url_char c.
Proof.
  unfold url_charb, url_char. intros [?|?%Ascii.eqb_eq]%orb_true_iff; auto.
Qed.

Lemma quote_byte_url_chars c : forallb url_charb (chars (PyStr.quote_byte c)) = true.
Proof. destruct c as [[] [] [] [] [] [] [] []]; by vm_compute. Qed.

Lemma quote_url_chars s : Forall url_char (chars (PyStr.quote s)).
Proof.
  induction s as [|c s IH]; [constructor|].
  cbn [PyStr.quote]. rewrite chars_app. apply Forall_app. split; [|done].
  pose proof (quote_byte_url_chars c) as H.
  pose proof (proj1 (forallb_forall _ _) H) as H'. apply Forall_forall.
  intros x Hx. by apply url_charb_spec, H', list_elem_of_In.
Qed.

(** X21: on a non-empty track list the fallback generator always returns
    a URL under [https://open.spotify.com/search/]; when one of the first
    five tracks has a name and an artist, what follows the prefix is fully
    percent-encoded (only letters, digits, [_.-~/] and [%]); otherwise,
    for an ASCII mood, it is the lower-cased mood, or ["mood"], followed by
    [%20music], and the mood is inserted as it is, without encoding.  The
    mood is ASCII so that its lower case is the one the code computes. *)
Theorem fallback_url_always_built tracks mood :
  tracks ≠ [] →
  ∃ rest,
    create_spotify_playlist_url tracks mood = Some (search_url_prefix +:+ rest)
    ∧ (track_names tracks ≠ [] → Forall url_char (chars rest))
    ∧ (track_names tracks = [] → PyStr.isascii (default "" mood) = true →
       rest = (if PyStr.truthy mood then PyStr.lower (default "" mood)
               else "mood") +:+ "%20music").
Proof.
  intros Hne. destruct (track_names tracks) as [|n ns] eqn:Hnames.
  - destruct tracks as [|t ts]; [done|].
    unfold create_spotify_playlist_url. rewrite Hnames.
    eexists. split; [by destruct (filter _ _)|]. by split.
  - destruct (fallback_url_of_names tracks mood) as (query & -> & _);
      [done|by rewrite Hnames|].
    eexists. split; [done|]. split; [|done].
    intros _. apply quote_url_chars.
Qed.

Lemma fallback_url_always_built_witness :
  [Sample.track None None None] ≠ []
  ∧ track_names [Sample.track None None None] = []
  ∧ PyStr.isascii "Very Happy" = true
  ∧ create_spotify_playlist_url [Sample.track None None None] (Some "Very Happy")
    = Some "https://open.spotify.com/search/very happy%20music".
Proof.
  split; [done|]. split; [done|]. split; [done|].
  destruct (fallback_url_always_built [Sample.track None None None]
              (Some "Very Happy")) as (rest & -> & _ & H); [done|].
  by rewrite H.
Defined.

(** ** OAuth endpoints and start-up *)

(** X22: [GET /spotify-auth-url] never answers 503: the 503 it raises when
    OAuth is not configured is caught by its own [except Exception] clause
    and comes out as 500; with OAuth configured it answers 200 with the
    authorization URL and instructions that quote the redirect URI.  The
    process is left untouched. *)
Theorem auth_url_unconfigured_is_500 authorize_url redirect_uri p :
  let r := get_spotify_auth_url authorize_url redirect_uri p in
  r.2 = p
  ∧ status_code_of r.1 ≠ 503
  ∧ (spotify_oauth p = false →
     r.1 = Raise (HTTPException 500 "Internal server error"))
  ∧ (spotify_oauth p = true →
     ∃ resp, r.1 = Ok resp ∧ auth_url resp = authorize_url
       ∧ auth_redirect_uri resp = redirect_uri
       ∧ setup_instructions resp !! 4%nat
         = Some ("4. Add '" +:+ redirect_uri +:+ "' to Redirect URIs")).
Proof.
  cbv zeta. unfold get_spotify_auth_url. unfold_monad. cbn.
  destruct (spotify_oauth p); cbn; split_and!; try done.
  intros _. by eexists.
Qed.

Lemma auth_url_unconfigured_is_500_witness :
  spotify_oauth Sample.offline = false
  ∧ status_code_of
      (get_spotify_auth_url "https://accounts.spotify.com/authorize"
         "http://127.0.0.1:8000/callback" Sample.offline).1 = 500.
Proof.
  split; [done|].
  destruct (auth_url_unconfigured_is_500 "https://accounts.spotify.com/authorize"
              "http://127.0.0.1:8000/callback" Sample.offline)
    as (_ & _ & H & _).
  by rewrite H.
Defined.

(** X23: [POST /spotify-token] answers 200 exactly when OAuth is
    configured, the code exchange returns a token and the identity call on
    it returns; 503 exactly when OAuth is not configured; 400 for a missing
    token and for every [SpotifyException], with the detail
    ["Invalid or expired authorization code"] when its message mentions
    [invalid_grant]; and 500 for any other exception. *)
Theorem spotify_token_status get_access_token current_user code p :
  let r := set_spotify_token get_access_token current_user code p in
  let user := λ t, current_user (access_token t) in
  (status_code_of r.1 = 503 ↔ spotify_oauth p = false)
  ∧ (status_code_of r.1 = 200 ↔
       spotify_oauth p = true
       ∧ ∃ t u, get_access_token code = Returns (Some t) ∧ user t = Returns u)
  ∧ (spotify_oauth p = true →
     (get_access_token code = Returns None → status_code_of r.1 = 400)
     ∧ (∀ msg,
          get_access_token code = RaisesSpotifyException msg
          ∨ (∃ t, get_access_token code = Returns (Some t)
                  ∧ user t = RaisesSpotifyException msg) →
          r.1 = Raise (HTTPException 400
                  (if PyStr.contains "invalid_grant" msg
                   then "Invalid or expired authorization code"
                   else "Spotify error: " +:+ msg)))
     ∧ (∀ msg,
          get_access_token code = RaisesOther msg
          ∨ (∃ t, get_access_token code = Returns (Some t)
                  ∧ user t = RaisesOther msg) →
          status_code_of r.1 = 500)).
Proof.
  cbv zeta.
  assert (∀ A msg q,
    @spotify_exception_clause A msg q
    = (Raise (HTTPException 400
               (if PyStr.contains "invalid_grant" msg
                then "Invalid or expired authorization code"
                else "Spotify error: " +:+ msg)), q)) as Hclause.
  { intros A msg q. unfold spotify_exception_clause.
    by destruct (PyStr.contains _ _). }
  remember (set_spotify_token get_access_token current_user code p) as r eqn:Hr.
  unfold set_spotify_token, endpoint, try_except in Hr.
  unfold bind at 1, gets at 1 in Hr.
  destruct (spotify_oauth p); cbn [negb] in Hr.
  2:{ subst r. cbn. split_and!; try done. split; [done|by intros [? _]]. }
  destruct (get_access_token code) as [[t|]|msg|msg] eqn:Hx;
    [destruct (current_user (access_token t)) as [u|msg|msg] eqn:Hu|..];
    rewrite ?Hclause in Hr; subst r; cbn; split_and!; try done;
    try (intros _; split_and!); try split; intros;
    repeat match goal with
           | H : _ ∧ _ |- _ => destruct H
           | H : _ ∨ _ |- _ => destruct H
           | H : ∃ _, _ |- _ => destruct H
           end;
    try simplify_eq; try done; try congruence; eauto.
  all: match goal with
       | |- context [PyStr.contains _ ?m0] =>
           match goal with
           | |- context [PyStr.contains _ ?m] =>
               assert (m0 = m) as -> by congruence
           end
       end; done.
Qed.

Lemma spotify_token_status_witness :
  spotify_oauth Sample.process = true
  ∧ (set_spotify_token
       (λ _, RaisesSpotifyException "error: invalid_grant, Invalid authorization code")
       (λ _, RaisesOther "unused") "stale code" Sample.process).1
    = Raise (HTTPException 400 "Invalid or expired authorization code").
Proof.
  split; [done|].
  destruct (spotify_token_status
              (λ _, RaisesSpotifyException "error: invalid_grant, Invalid authorization code")
              (λ _, RaisesOther "unused") "stale code" Sample.process)
    as (_ & _ & H).
  destruct (H eq_refl) as (_ & Hspotify & _).
  rewrite (Hspotify "error: invalid_grant, Invalid authorization code")
    by (by left).
  done.
Defined.

(** X24: start-up of the Spotify clients.  Without both credentials
    nothing is set and no call is made.  With them, the OAuth manager and
    the catalog client are installed before the test search, so they stay
    installed when that search raises and the function returns [False]:
    afterwards the playlist endpoint does not answer 503 but searches. *)
Theorem initialize_spotify_keeps_client_on_failure client_id client_secret p :
  let r := initialize_spotify client_id client_secret p in
  let has_credentials := PyStr.truthy client_id && PyStr.truthy client_secret in
  (has_credentials = false → r = (Ok false, p))
  ∧ (has_credentials = true →
     r.1 = Ok (bool_decide (is_Some (search_results (spotify p) "test" 1 "")))
     ∧ spotify_oauth r.2 = true ∧ spotify_client r.2 = true
     ∧ created_playlists r.2 = created_playlists p
     ∧ api_calls (trace r.2) = ApiSearch "test" 1 "" :: api_calls (trace p)
     ∧ ∀ mood limit,
         status_code_of (get_playlist_by_mood mood limit r.2).1 ≠ 503).
Proof.
  cbv zeta.
  remember (initialize_spotify client_id client_secret p) as r eqn:Hr.
  unfold initialize_spotify, api_search in Hr. unfold_monad.
  destruct (PyStr.truthy client_id), (PyStr.truthy client_secret);
    cbn in Hr; try (subst r; by split).
  split; [done|]. intros _.
  assert (spotify_client r.2 = true) as Hclient.
  { subst r. by destruct (search_results _ _ _ _). }
  split_and!; try (subst r; by destruct (search_results _ _ _ _)).
  intros mood limit. rewrite get_playlist_by_mood_spec, Hclient.
  case_bool_decide; [|done].
  by destruct (search_outcome _ _ _).
Qed.

Lemma initialize_spotify_keeps_client_on_failure_witness :
  PyStr.truthy (Some "id") && PyStr.truthy (Some "secret") = true
  ∧ (initialize_spotify (Some "id") (Some "secret") Sample2.fresh).1 = Ok false
  ∧ spotify_client
      (initialize_spotify (Some "id") (Some "secret") Sample2.fresh).2 = true.
Proof.
  split; [done|].
  destruct (initialize_spotify_keeps_client_on_failure (Some "id")
              (Some "secret") Sample2.fresh) as [_ H].
  destruct (H eq_refl) as (H1 & _ & H2 & _).
  by rewrite H1, H2.
Defined.
